(** * go-query-builder (package gqbd): a shallow embedding and its properties

    The package builds a SELECT statement and its bound arguments for the
    PostgreSQL or the MariaDB placeholder convention.  This development
    embeds [gqbd.go] function by function and proves what the specification
    says about it.

    Conventions of the embedding.
    - A Go [string] is a sequence of bytes: Rocq's [string], each [ascii]
      being one byte.  Where Go reads a string rune by rune ([for range],
      [strings.Map]) the UTF-8 decoding is written out.
    - A Go [int] is a 64-bit signed integer: a [Z] with [wrap] applied
      where the source adds.
    - The builder is a record; every method of [*QueryBuilder] mutates the
      receiver and returns it, which is a function from builder to builder.
      [Build] also returns the statement text and the argument slice.
    - [[]interface{}] is [list any]. *)

From Stdlib Require Import ZArith Strings.String Strings.Ascii List Lia Bool.
From Stdlib Require Import Numbers.DecimalString Numbers.DecimalZ.
From stdpp Require Import base strings gmap list.

Open Scope string_scope.
Open Scope Z_scope.
Open Scope list_scope.

(** Let [simpl] unfold string concatenation on a constructor. *)
Arguments String.append : simpl nomatch.

(** ** Bytes and 64-bit integers *)

Definition byte_of (c : ascii) : Z := Z.of_N (N_of_ascii c).
Definition ascii_of (z : Z) : ascii := ascii_of_N (Z.to_N z).

(** The string made of the given bytes. *)
Definition bytes (l : list Z) : string := string_of_list_ascii (map ascii_of l).

(** The one-character string holding the double quote. *)
Definition dquote : string := String (ascii_of 34) EmptyString.

(** Go's [int] on a 64-bit platform. *)
Definition int_min : Z := -9223372036854775808.
Definition int_max : Z := 9223372036854775807.

Definition wrap (z : Z) : Z :=
  (z + 9223372036854775808) mod 18446744073709551616 - 9223372036854775808.

(** [a + b] on [int]. *)
Definition int_add (a b : Z) : Z := wrap (a + b).

(** [len(s)] of a slice. *)
Definition len {A : Type} (l : list A) : Z := Z.of_nat (length l).

(** ** UTF-8, as package [unicode/utf8] and the [range] loop read it *)

Definition RuneError : Z := 0xFFFD.
Definition MaxRune : Z := 0x10FFFF.

Definition in_range (lo hi b : Z) : bool := (lo <=? b) && (b <=? hi).

(** Lowest and highest second byte accepted after the lead byte [b0] of a
    three-byte or four-byte sequence ([acceptRanges] of [unicode/utf8]). *)
Definition accept_lo (b0 : Z) : Z :=
  if b0 =? 0xE0 then 0xA0 else if b0 =? 0xF0 then 0x90 else 0x80.
Definition accept_hi (b0 : Z) : Z :=
  if b0 =? 0xED then 0x9F else if b0 =? 0xF4 then 0x8F else 0xBF.

(** [utf8.DecodeRuneInString]: the first rune of [s] and its width in
    bytes; an invalid or truncated sequence is [(RuneError, 1)]. *)
Definition DecodeRuneInString (s : string) : Z * nat :=
  match s with
  | EmptyString => (RuneError, 0%nat)
  | String c0 t0 =>
    let b0 := byte_of c0 in
    if b0 <? 0x80 then (b0, 1%nat)
    else if in_range 0xC2 0xDF b0 then
      match t0 with
      | String c1 _ =>
        let b1 := byte_of c1 in
        if in_range 0x80 0xBF b1
        then ((b0 - 0xC0) * 64 + (b1 - 0x80), 2%nat)
        else (RuneError, 1%nat)
      | _ => (RuneError, 1%nat)
      end
    else if in_range 0xE0 0xEF b0 then
      match t0 with
      | String c1 (String c2 _) =>
        let b1 := byte_of c1 in
        let b2 := byte_of c2 in
        if in_range (accept_lo b0) (accept_hi b0) b1 && in_range 0x80 0xBF b2
        then ((b0 - 0xE0) * 4096 + (b1 - 0x80) * 64 + (b2 - 0x80), 3%nat)
        else (RuneError, 1%nat)
      | _ => (RuneError, 1%nat)
      end
    else if in_range 0xF0 0xF4 b0 then
      match t0 with
      | String c1 (String c2 (String c3 _)) =>
        let b1 := byte_of c1 in
        let b2 := byte_of c2 in
        let b3 := byte_of c3 in
        if in_range (accept_lo b0) (accept_hi b0) b1
           && in_range 0x80 0xBF b2 && in_range 0x80 0xBF b3
        then ((b0 - 0xF0) * 262144 + (b1 - 0x80) * 4096
              + (b2 - 0x80) * 64 + (b3 - 0x80), 4%nat)
        else (RuneError, 1%nat)
      | _ => (RuneError, 1%nat)
      end
    else (RuneError, 1%nat)
  end.

(** [for _, char := range s]: the runes the loop body sees, in order.
    After a rune of width [w] the loop resumes [w] bytes further on, so
    [skip] counts the bytes of the current rune still to be passed. *)
Fixpoint range_from (skip : nat) (s : string) : list Z :=
  match s with
  | EmptyString => []
  | String _ t =>
    match skip with
    | S k => range_from k t
    | O => let '(r, w) := DecodeRuneInString s in r :: range_from (w - 1) t
    end
  end.

Definition range_runes (s : string) : list Z := range_from 0 s.

(** [utf8.AppendRune] / [strings.Builder.WriteRune]: the UTF-8 encoding of
    [r]; a value that is no Unicode scalar is written as U+FFFD. *)
Definition EncodeRune (r : Z) : string :=
  if in_range 0 0x7F r then String (ascii_of r) EmptyString
  else if in_range 0 0x7FF r then
    String (ascii_of (0xC0 + r / 64))
      (String (ascii_of (0x80 + r mod 64)) EmptyString)
  else if (r <? 0) || (MaxRune <? r) || in_range 0xD800 0xDFFF r then
    String (ascii_of 0xEF) (String (ascii_of 0xBF) (String (ascii_of 0xBD) EmptyString))
  else if r <=? 0xFFFF then
    String (ascii_of (0xE0 + r / 4096))
      (String (ascii_of (0x80 + (r / 64) mod 64))
         (String (ascii_of (0x80 + r mod 64)) EmptyString))
  else
    String (ascii_of (0xF0 + r / 262144))
      (String (ascii_of (0x80 + (r / 4096) mod 64))
         (String (ascii_of (0x80 + (r / 64) mod 64))
            (String (ascii_of (0x80 + r mod 64)) EmptyString))).

(** [utf8.ValidString]. *)
Fixpoint valid_from (skip : nat) (s : string) : bool :=
  match s with
  | EmptyString => true
  | String c t =>
    match skip with
    | S k => valid_from k t
    | O =>
      let '(r, w) := DecodeRuneInString s in
      if (r =? RuneError) && (w =? 1)%nat then false else valid_from (w - 1) t
    end
  end.

Definition ValidString (s : string) : bool := valid_from 0 s.

(** ** Package [strings] and [fmt], as far as the source uses them *)

(** [strings.Join(elems, sep)]. *)
Definition Join (elems : list string) (sep : string) : string :=
  String.concat sep elems.

(** [strings.HasPrefix(s, prefix)]. *)
Fixpoint HasPrefix (s pre : string) {struct pre} : bool :=
  match pre, s with
  | EmptyString, _ => true
  | String p pre', String c s' => Ascii.eqb p c && HasPrefix s' pre'
  | String _ _, EmptyString => false
  end.

(** [strings.ReplaceAll(s, old, new)] for a non-empty [old]: every
    non-overlapping occurrence, left to right.  The source only passes a
    one-byte [old]; the empty [old], which Go treats apart, is left out and
    returns [s]. *)
Fixpoint replace_from (skip : nat) (s old new : string) : string :=
  match s with
  | EmptyString => EmptyString
  | String c t =>
    match skip with
    | S k => replace_from k t old new
    | O =>
      if HasPrefix s old
      then new +:+ replace_from (String.length old - 1) t old new
      else String c (replace_from 0 t old new)
    end
  end.

Definition ReplaceAll (s old new : string) : string :=
  match old with
  | EmptyString => s
  | _ => replace_from 0 s old new
  end.

(** [%d] of an [int]: decimal, with a leading minus sign when negative. *)
Definition itoa (n : Z) : string := NilZero.string_of_int (Z.to_int n).

(** The operands of [fmt.Sprintf] in the source are strings and ints. *)
Inductive fmt_arg : Type :=
| FString (s : string)
| FInt (n : Z).

(** [type=value] as [fmt] prints an operand it has no verb for. *)
Definition bad_operand (a : fmt_arg) : string :=
  match a with
  | FString s => "string=" +:+ s
  | FInt n => "int=" +:+ itoa n
  end.

Definition extra_operands (a : list fmt_arg) : string :=
  match a with
  | [] => EmptyString
  | _ => "%!(EXTRA " +:+ Join (map bad_operand a) ", " +:+ ")"
  end.

(** One verb applied to the operands left; returns the text and the
    operands that remain.  The formats of the source use [%s] and [%d]
    only; any other verb is rendered here like a verb that does not fit its
    operand. *)
Definition format_verb (v : ascii) (a : list fmt_arg) : string * list fmt_arg :=
  match a with
  | [] => ("%!" +:+ String v "(MISSING)", [])
  | x :: a' =>
    match x with
    | FString s =>
      if Ascii.eqb v "s" then (s, a')
      else ("%!" +:+ String v "(" +:+ bad_operand x +:+ ")", a')
    | FInt n =>
      if Ascii.eqb v "d" then (itoa n, a')
      else ("%!" +:+ String v "(" +:+ bad_operand x +:+ ")", a')
    end
  end.

(** [fmt.Sprintf(format, a...)]. *)
Fixpoint Sprintf (format : string) (a : list fmt_arg) : string :=
  match format with
  | EmptyString => extra_operands a
  | String c rest =>
    if Ascii.eqb c "%" then
      match rest with
      | EmptyString => "%!(NOVERB)" +:+ extra_operands a
      | String v rest' =>
        if Ascii.eqb v "%" then String "%" (Sprintf rest' a)
        else let '(text, a') := format_verb v a in text +:+ Sprintf rest' a'
      end
    else String c (Sprintf rest a)
  end.

(** [strings.ToUpper] maps an ASCII-only string byte by byte and any other
    string rune by rune through [unicode.ToUpper]. *)
Definition isASCII (s : string) : bool :=
  forallb (fun c => byte_of c <? 0x80) (list_ascii_of_string s).

Definition upper_byte (c : ascii) : ascii :=
  let b := byte_of c in
  if in_range 97 122 b then ascii_of (b - 32) else c.

Fixpoint map_bytes (f : ascii -> ascii) (s : string) : string :=
  match s with
  | EmptyString => EmptyString
  | String c t => String (f c) (map_bytes f t)
  end.

(** [strings.Map(mapping, s)]: a negative result drops the rune. *)
Definition Map (mapping : Z -> Z) (s : string) : string :=
  fold_right
    (fun c acc => let r := mapping c in
                  if 0 <=? r then EncodeRune r +:+ acc else acc)
    EmptyString (range_runes s).

(** ** The source: [gqbd.go] *)

(** [type DBType string]. *)
Definition DBType : Type := string.

Definition PostgreSQL : DBType := "postgres".
Definition MariaDB : DBType := "mariadb".

(** A value of type [interface{}]: what a caller binds to a placeholder. *)
Inductive any : Type :=
| AInt (n : Z)
| AString (s : string)
| ABool (b : bool)
| ANil.

Record QueryBuilder : Type := mkQueryBuilder {
  dbType : DBType;
  table : string;
  columns : list string;
  joins : list string;
  conditions : list string;
  groupBy : list string;
  having : list string;
  orderBy : string;
  limit : Z;
  offset : Z;
  args : list any;
  distinct : bool
}.

(** Assignments to one field of the receiver. *)
Definition set_columns (qb : QueryBuilder) (v : list string) : QueryBuilder :=
  mkQueryBuilder (dbType qb) (table qb) v (joins qb) (conditions qb)
    (groupBy qb) (having qb) (orderBy qb) (limit qb) (offset qb) (args qb)
    (distinct qb).
Definition set_joins (qb : QueryBuilder) (v : list string) : QueryBuilder :=
  mkQueryBuilder (dbType qb) (table qb) (columns qb) v (conditions qb)
    (groupBy qb) (having qb) (orderBy qb) (limit qb) (offset qb) (args qb)
    (distinct qb).
Definition set_conditions (qb : QueryBuilder) (v : list string) : QueryBuilder :=
  mkQueryBuilder (dbType qb) (table qb) (columns qb) (joins qb) v
    (groupBy qb) (having qb) (orderBy qb) (limit qb) (offset qb) (args qb)
    (distinct qb).
Definition set_groupBy (qb : QueryBuilder) (v : list string) : QueryBuilder :=
  mkQueryBuilder (dbType qb) (table qb) (columns qb) (joins qb) (conditions qb)
    v (having qb) (orderBy qb) (limit qb) (offset qb) (args qb)
    (distinct qb).
Definition set_having (qb : QueryBuilder) (v : list string) : QueryBuilder :=
  mkQueryBuilder (dbType qb) (table qb) (columns qb) (joins qb) (conditions qb)
    (groupBy qb) v (orderBy qb) (limit qb) (offset qb) (args qb)
    (distinct qb).
Definition set_orderBy (qb : QueryBuilder) (v : string) : QueryBuilder :=
  mkQueryBuilder (dbType qb) (table qb) (columns qb) (joins qb) (conditions qb)
    (groupBy qb) (having qb) v (limit qb) (offset qb) (args qb)
    (distinct qb).
Definition set_limit (qb : QueryBuilder) (v : Z) : QueryBuilder :=
  mkQueryBuilder (dbType qb) (table qb) (columns qb) (joins qb) (conditions qb)
    (groupBy qb) (having qb) (orderBy qb) v (offset qb) (args qb)
    (distinct qb).
Definition set_offset (qb : QueryBuilder) (v : Z) : QueryBuilder :=
  mkQueryBuilder (dbType qb) (table qb) (columns qb) (joins qb) (conditions qb)
    (groupBy qb) (having qb) (orderBy qb) (limit qb) v (args qb)
    (distinct qb).
Definition set_args (qb : QueryBuilder) (v : list any) : QueryBuilder :=
  mkQueryBuilder (dbType qb) (table qb) (columns qb) (joins qb) (conditions qb)
    (groupBy qb) (having qb) (orderBy qb) (limit qb) (offset qb) v
    (distinct qb).
Definition set_distinct (qb : QueryBuilder) (v : bool) : QueryBuilder :=
  mkQueryBuilder (dbType qb) (table qb) (columns qb) (joins qb) (conditions qb)
    (groupBy qb) (having qb) (orderBy qb) (limit qb) (offset qb) (args qb)
    v.

(** [escapeIdentifier]. *)
Definition escapeIdentifier (dbType : DBType) (name : string) : string :=
  if String.eqb name "*" then name
  else if String.eqb dbType PostgreSQL then
    Sprintf (dquote +:+ "%s" +:+ dquote)
      [FString (ReplaceAll name dquote (dquote +:+ dquote))]
  else
    Sprintf "`%s`" [FString (ReplaceAll name "`" "``")].

Section Direction.

(** [unicode.ToUpper], the case table of the Go library. *)
Variable unicode_ToUpper : Z -> Z.

Definition ToUpper (s : string) : string :=
  if isASCII s then map_bytes upper_byte s else Map unicode_ToUpper s.

(** [validateDirection]. *)
Definition validateDirection (direction : string) : string :=
  let direction := ToUpper direction in
  if negb (String.eqb direction "ASC") && negb (String.eqb direction "DESC")
  then "DESC"
  else direction.

End Direction.

(** [replacePlaceholders]: the loop body, on the builder's text and the
    counter, and the loop over the runes of [condition]. *)
Definition replace_step (st : string * Z) (char : Z) : string * Z :=
  let '(result, placeholderCount) := st in
  if char =? 63 (* '?' *) then
    (result +:+ Sprintf "$%d" [FInt placeholderCount],
     int_add placeholderCount 1)
  else
    (result +:+ EncodeRune char, placeholderCount).

Definition replacePlaceholders (dbType : DBType) (condition : string)
    (startIdx : Z) : string :=
  if String.eqb dbType MariaDB then condition
  else
    fst (fold_left replace_step (range_runes condition)
           (EmptyString, startIdx)).

(** [generatePlaceholders].  [make([]string, count)] panics on a negative
    [count]; both callers pass a length, so [count] is a [nat] here.  The
    loop fills [placeholders[i]] for [i] from [0]. *)
Definition placeholder_at (dbType : DBType) (startIdx : Z) (i : nat) : string :=
  if String.eqb dbType PostgreSQL
  then Sprintf "$%d" [FInt (int_add startIdx (Z.of_nat i))]
  else "?".

Definition generatePlaceholders (dbType : DBType) (startIdx : Z)
    (count : nat) : string :=
  let placeholders := map (placeholder_at dbType startIdx) (seq 0 count) in
  Join placeholders ", ".

(** [NewQueryBuilder]. *)
Definition NewQueryBuilder (dbType : DBType) (table : string)
    (columns : list string) : QueryBuilder :=
  let safeTable := escapeIdentifier dbType table in
  let safeColumns := map (escapeIdentifier dbType) columns in
  let safeColumns := if len safeColumns =? 0 then ["*"] else safeColumns in
  mkQueryBuilder dbType safeTable safeColumns [] [] [] [] EmptyString 0 0 []
    false.

(** [Distinct]. *)
Definition Distinct (qb : QueryBuilder) : QueryBuilder :=
  set_distinct qb true.

(** [Aggregate]. *)
Definition Aggregate (qb : QueryBuilder) (function column : string)
    : QueryBuilder :=
  let safeCol := escapeIdentifier (dbType qb) column in
  set_columns qb
    (columns qb ++ [Sprintf "%s(%s)" [FString function; FString safeCol]]).

(** [LeftJoin], [InnerJoin], [RightJoin]. *)
Definition LeftJoin (qb : QueryBuilder) (joinTable onCondition : string)
    : QueryBuilder :=
  let safeTable := escapeIdentifier (dbType qb) joinTable in
  set_joins qb
    (joins qb
     ++ [Sprintf "LEFT JOIN %s ON %s" [FString safeTable; FString onCondition]]).

Definition InnerJoin (qb : QueryBuilder) (joinTable onCondition : string)
    : QueryBuilder :=
  let safeTable := escapeIdentifier (dbType qb) joinTable in
  set_joins qb
    (joins qb
     ++ [Sprintf "INNER JOIN %s ON %s" [FString safeTable; FString onCondition]]).

Definition RightJoin (qb : QueryBuilder) (joinTable onCondition : string)
    : QueryBuilder :=
  let safeTable := escapeIdentifier (dbType qb) joinTable in
  set_joins qb
    (joins qb
     ++ [Sprintf "RIGHT JOIN %s ON %s" [FString safeTable; FString onCondition]]).

(** [Where]. *)
Definition Where (qb : QueryBuilder) (condition : string) (a : list any)
    : QueryBuilder :=
  let updatedCondition :=
    replacePlaceholders (dbType qb) condition (int_add (len (args qb)) 1) in
  let qb := set_conditions qb (conditions qb ++ [updatedCondition]) in
  set_args qb (args qb ++ a).

(** [WhereIn]. *)
Definition WhereIn (qb : QueryBuilder) (column : string) (values : list any)
    : QueryBuilder :=
  let safeCol := escapeIdentifier (dbType qb) column in
  let placeholders :=
    generatePlaceholders (dbType qb) (int_add (len (args qb)) 1)
      (length values) in
  let qb :=
    set_conditions qb
      (conditions qb
       ++ [Sprintf "%s IN (%s)" [FString safeCol; FString placeholders]]) in
  set_args qb (args qb ++ values).

(** [WhereBetween].  The format has three [%s] and the call passes two
    operands, as in the source. *)
Definition WhereBetween (qb : QueryBuilder) (column : string)
    (start end_ : any) : QueryBuilder :=
  let safeCol := escapeIdentifier (dbType qb) column in
  let placeholders :=
    generatePlaceholders (dbType qb) (int_add (len (args qb)) 1) 2 in
  let qb :=
    set_conditions qb
      (conditions qb
       ++ [Sprintf "%s BETWEEN %s AND %s"
             [FString safeCol; FString placeholders]]) in
  set_args qb (args qb ++ [start; end_]).

(** [GroupBy]. *)
Definition GroupBy (qb : QueryBuilder) (cols : list string) : QueryBuilder :=
  fold_left
    (fun qb col =>
       set_groupBy qb (groupBy qb ++ [escapeIdentifier (dbType qb) col]))
    cols qb.

(** [Having]. *)
Definition Having (qb : QueryBuilder) (condition : string) (a : list any)
    : QueryBuilder :=
  let updatedCondition :=
    replacePlaceholders (dbType qb) condition (int_add (len (args qb)) 1) in
  let qb := set_having qb (having qb ++ [updatedCondition]) in
  set_args qb (args qb ++ a).

(** [OrderBy].  [allowedColumns] is a Go map, [None] when it is [nil];
    the test [_, ok := allowedColumns[column]] asks whether the key is
    present, whatever its value. *)
Definition OrderBy (unicode_ToUpper : Z -> Z) (qb : QueryBuilder)
    (column direction : string) (allowedColumns : option (gmap string bool))
    : QueryBuilder :=
  let direction := validateDirection unicode_ToUpper direction in
  let column :=
    match allowedColumns with
    | Some m =>
      match m !! column with
      | Some _ => column
      | None => "id"
      end
    | None => column
    end in
  let safeCol := escapeIdentifier (dbType qb) column in
  set_orderBy qb (Sprintf "%s %s" [FString safeCol; FString direction]).

(** [Limit] and [Offset]. *)
Definition Limit (qb : QueryBuilder) (n : Z) : QueryBuilder := set_limit qb n.
Definition Offset (qb : QueryBuilder) (n : Z) : QueryBuilder := set_offset qb n.

(** [Build]: the statement text, the argument slice it returns, and the
    builder after the call (its [args] is the slice returned). *)
Definition Build (qb : QueryBuilder) : string * list any * QueryBuilder :=
  let queryBuilder := EmptyString in
  let queryBuilder := queryBuilder +:+ "SELECT " in
  let queryBuilder := queryBuilder +:+ Join (columns qb) ", " in
  let queryBuilder := queryBuilder +:+ " FROM " in
  let queryBuilder := queryBuilder +:+ table qb in
  let queryBuilder :=
    if 0 <? len (joins qb)
    then queryBuilder +:+ (" " +:+ Join (joins qb) " ")
    else queryBuilder in
  let queryBuilder :=
    if 0 <? len (conditions qb)
    then queryBuilder +:+ (" WHERE " +:+ Join (conditions qb) " AND ")
    else queryBuilder in
  let queryBuilder :=
    if negb (String.eqb (orderBy qb) EmptyString)
    then queryBuilder +:+ (" ORDER BY " +:+ orderBy qb)
    else queryBuilder in
  let argIdx := int_add (len (args qb)) 1 in
  let '(queryBuilder, qb, argIdx) :=
    if 0 <? limit qb
    then (queryBuilder +:+ Sprintf " LIMIT $%d" [FInt argIdx],
          set_args qb (args qb ++ [AInt (limit qb)]),
          int_add argIdx 1)
    else (queryBuilder, qb, argIdx) in
  let '(queryBuilder, qb) :=
    if 0 <? offset qb
    then (queryBuilder +:+ Sprintf " OFFSET $%d" [FInt argIdx],
          set_args qb (args qb ++ [AInt (offset qb)]))
    else (queryBuilder, qb) in
  (queryBuilder, args qb, qb).

(** ** Reading the results back: definitions the statements use *)

(** [name] with every byte equal to [q] written twice. *)
Fixpoint doubled (q : ascii) (name : string) : string :=
  match name with
  | EmptyString => EmptyString
  | String c t =>
    if Ascii.eqb q c then String q (String q (doubled q t))
    else String c (doubled q t)
  end.

(** How a SQL lexer reads a delimited identifier: after the opening quote
    [q], two quotes in a row stand for one quote of the name and a single
    quote closes the identifier.  Returns the name and the text left. *)
Fixpoint read_body (q : ascii) (s : string) : option (string * string) :=
  match s with
  | EmptyString => None
  | String c t =>
    if Ascii.eqb q c then
      match t with
      | EmptyString => Some (EmptyString, EmptyString)
      | String c' t' =>
        if Ascii.eqb q c'
        then match read_body q t' with
             | Some (n, rest) => Some (String q n, rest)
             | None => None
             end
        else Some (EmptyString, t)
      end
    else match read_body q t with
         | Some (n, rest) => Some (String c n, rest)
         | None => None
         end
  end.

Definition read_quoted (q : ascii) (s : string) : option (string * string) :=
  match s with
  | EmptyString => None
  | String c t => if Ascii.eqb q c then read_body q t else None
  end.

(** The clauses of the statement, each one empty when its state is. *)
Definition select_clause (qb : QueryBuilder) : string :=
  "SELECT " +:+ Join (columns qb) ", ".

Definition from_clause (qb : QueryBuilder) : string :=
  " FROM " +:+ table qb.

Definition join_clause (qb : QueryBuilder) : string :=
  match joins qb with
  | [] => EmptyString
  | _ => " " +:+ Join (joins qb) " "
  end.

Definition where_clause (qb : QueryBuilder) : string :=
  match conditions qb with
  | [] => EmptyString
  | _ => " WHERE " +:+ Join (conditions qb) " AND "
  end.

Definition order_clause (qb : QueryBuilder) : string :=
  if String.eqb (orderBy qb) EmptyString then EmptyString
  else " ORDER BY " +:+ orderBy qb.

Definition limit_clause (qb : QueryBuilder) : string :=
  if 0 <? limit qb
  then " LIMIT $" +:+ itoa (int_add (len (args qb)) 1)
  else EmptyString.

Definition offset_clause (qb : QueryBuilder) : string :=
  if 0 <? offset qb
  then " OFFSET $"
       +:+ itoa (if 0 <? limit qb
                 then int_add (int_add (len (args qb)) 1) 1
                 else int_add (len (args qb)) 1)
  else EmptyString.

(** The statement up to and including ORDER BY. *)
Definition statement_head (qb : QueryBuilder) : string :=
  select_clause qb +:+ from_clause qb +:+ join_clause qb
  +:+ where_clause qb +:+ order_clause qb.

(** The values [Build] binds for LIMIT and OFFSET. *)
Definition paging_args (qb : QueryBuilder) : list any :=
  (if 0 <? limit qb then [AInt (limit qb)] else [])
  ++ (if 0 <? offset qb then [AInt (offset qb)] else []).

Definition set_dbType (qb : QueryBuilder) (v : DBType) : QueryBuilder :=
  mkQueryBuilder v (table qb) (columns qb) (joins qb) (conditions qb)
    (groupBy qb) (having qb) (orderBy qb) (limit qb) (offset qb) (args qb)
    (distinct qb).

(** [s] without its first [k] bytes ([s[k:]], empty when [s] is shorter). *)
Fixpoint drop_bytes (k : nat) (s : string) : string :=
  match k, s with
  | O, _ => s
  | S k', String _ t => drop_bytes k' t
  | S _, EmptyString => EmptyString
  end.

(** Every byte of [s] is at least [0x80]. *)
Fixpoint high_bytes (s : string) : Prop :=
  match s with
  | EmptyString => True
  | String c t => 0x80 <= byte_of c /\ high_bytes t
  end.

(** The rewriting the specification describes, on the runes of the
    condition: a [?] becomes [$N] and [N] goes up by one, any other rune is
    written out. *)
Fixpoint rewrite_runes (rs : list Z) (n : Z) : string :=
  match rs with
  | [] => EmptyString
  | r :: rs' =>
    if r =? 63 then "$" +:+ itoa n +:+ rewrite_runes rs' (int_add n 1)
    else EncodeRune r +:+ rewrite_runes rs' n
  end.

(** The same rewriting on the bytes of the condition: every byte other
    than [?] is copied. *)
Fixpoint rewrite_bytes (s : string) (n : Z) : string :=
  match s with
  | EmptyString => EmptyString
  | String c t =>
    if byte_of c =? 63 then "$" +:+ itoa n +:+ rewrite_bytes t (int_add n 1)
    else String c (rewrite_bytes t n)
  end.

(** The column [OrderBy] sorts by. *)
Definition sort_column (column : string)
    (allowedColumns : option (gmap string bool)) : string :=
  match allowedColumns with
  | None => column
  | Some m => if decide (is_Some (m !! column)) then column else "id"
  end.

(** The markers [$start], [$start+1], ... of [count] placeholders. *)
Definition markers (start : Z) (count : nat) : list string :=
  map (fun i => "$" +:+ itoa (start + Z.of_nat i)) (seq 0 count).

(** *** Sequences of calls and the placeholders they embed *)

(** The calls that allocate placeholders. *)
Inductive call : Type :=
| CallWhere (condition : string) (a : list any)
| CallWhereIn (column : string) (values : list any)
| CallWhereBetween (column : string) (start end_ : any)
| CallHaving (condition : string) (a : list any)
| CallBuild.

(** One call on the builder; for [Build], the builder it leaves. *)
Definition exec (qb : QueryBuilder) (c : call) : QueryBuilder :=
  match c with
  | CallWhere condition a => Where qb condition a
  | CallWhereIn column values => WhereIn qb column values
  | CallWhereBetween column start end_ => WhereBetween qb column start end_
  | CallHaving condition a => Having qb condition a
  | CallBuild => snd (Build qb)
  end.

Definition run (qb : QueryBuilder) (calls : list call) : QueryBuilder :=
  fold_left exec calls qb.

(** The number of [?] in a condition. *)
Fixpoint count_placeholders (s : string) : nat :=
  match s with
  | EmptyString => 0%nat
  | String c t =>
    if byte_of c =? 63 then S (count_placeholders t)
    else count_placeholders t
  end.

Fixpoint count_question (rs : list Z) : nat :=
  match rs with
  | [] => 0%nat
  | r :: rs' =>
    if r =? 63 then S (count_question rs') else count_question rs'
  end.

(** The placeholder tokens a call embeds in the text it produces, and the
    values it appends to the arguments. *)
Definition embedded (qb : QueryBuilder) (c : call) : nat :=
  match c with
  | CallWhere condition _ | CallHaving condition _ =>
    count_placeholders condition
  | CallWhereIn _ values => length values
  | CallWhereBetween _ _ _ => 2%nat
  | CallBuild => length (paging_args qb)
  end.

Definition bound_values (qb : QueryBuilder) (c : call) : list any :=
  match c with
  | CallWhere _ a | CallHaving _ a => a
  | CallWhereIn _ values => values
  | CallWhereBetween _ start end_ => [start; end_]
  | CallBuild => paging_args qb
  end.

Definition total_embedded (qb : QueryBuilder) (calls : list call) : nat :=
  list_sum (map (embedded qb) calls).

(** A call passes as many arguments as its condition has placeholders;
    only [Where] and [Having] leave this to the caller. *)
Definition balanced (c : call) : Prop :=
  match c with
  | CallWhere condition a | CallHaving condition a =>
    length a = count_placeholders condition
  | _ => True
  end.

(** A text with its placeholders marked: literal text and numbered
    markers. *)
Inductive piece : Type :=
| Text (s : string)
| Marker (n : Z).

(** The two ways a marker is written. *)
Definition positional (n : Z) : string := "$" +:+ itoa n.
Definition fixed_token (n : Z) : string := "?".

Fixpoint render (style : Z -> string) (ps : list piece) : string :=
  match ps with
  | [] => EmptyString
  | Text s :: ps' => s +:+ render style ps'
  | Marker n :: ps' => style n +:+ render style ps'
  end.

Fixpoint marker_numbers (ps : list piece) : list Z :=
  match ps with
  | [] => []
  | Text _ :: ps' => marker_numbers ps'
  | Marker n :: ps' => n :: marker_numbers ps'
  end.

(** [start], [start + 1], ..., [count] numbers. *)
Fixpoint consecutive (start : Z) (count : nat) : list Z :=
  match count with
  | O => []
  | S k => start :: consecutive (start + 1) k
  end.

(** A condition rewritten rune by rune, as for PostgreSQL. *)
Fixpoint rune_pieces (rs : list Z) (n : Z) : list piece :=
  match rs with
  | [] => []
  | r :: rs' =>
    if r =? 63 then Marker n :: rune_pieces rs' (n + 1)
    else Text (EncodeRune r) :: rune_pieces rs' n
  end.

(** A condition kept byte for byte, as for MariaDB. *)
Fixpoint byte_pieces (s : string) (n : Z) : list piece :=
  match s with
  | EmptyString => []
  | String c t =>
    if byte_of c =? 63 then Marker n :: byte_pieces t (n + 1)
    else Text (String c EmptyString) :: byte_pieces t n
  end.

(** A list of [count] placeholders separated by a comma and a space. *)
Fixpoint list_pieces (start : Z) (count : nat) : list piece :=
  match count with
  | O => []
  | S k =>
    Marker start
    :: match k with
       | O => []
       | S _ => Text ", " :: list_pieces (start + 1) k
       end
  end.

(** The text a call produces, marked, when its first placeholder has the
    number [start]: the fragment of [Where], [WhereIn], [WhereBetween] and
    [Having], and for [Build] the statement after ORDER BY. *)
Definition call_pieces (qb : QueryBuilder) (start : Z) (c : call)
    : list piece :=
  match c with
  | CallWhere condition _ | CallHaving condition _ =>
    if String.eqb (dbType qb) MariaDB then byte_pieces condition start
    else rune_pieces (range_runes condition) start
  | CallWhereIn column values =>
    Text (escapeIdentifier (dbType qb) column +:+ " IN (")
    :: list_pieces start (length values) ++ [Text ")"]
  | CallWhereBetween column _ _ =>
    Text (escapeIdentifier (dbType qb) column +:+ " BETWEEN ")
    :: list_pieces start 2 ++ [Text " AND %!s(MISSING)"]
  | CallBuild =>
    (if 0 <? limit qb then [Text " LIMIT "; Marker start] else [])
    ++ (if 0 <? offset qb
        then [Text " OFFSET ";
              Marker (if 0 <? limit qb then start + 1 else start)]
        else [])
  end.

(** How the markers of a call are written for a dialect. *)
Definition call_style (d : DBType) (c : call) : Z -> string :=
  match c with
  | CallWhere _ _ | CallHaving _ _ =>
    if String.eqb d MariaDB then fixed_token else positional
  | CallWhereIn _ _ | CallWhereBetween _ _ _ =>
    if String.eqb d PostgreSQL then positional else fixed_token
  | CallBuild => positional
  end.

(** The text a call produced: the fragment appended last, and for [Build]
    the statement after ORDER BY. *)
Definition produced (qb : QueryBuilder) (c : call) : string :=
  match c with
  | CallWhere _ _ | CallWhereIn _ _ | CallWhereBetween _ _ _ =>
    List.last (conditions (exec qb c)) EmptyString
  | CallHaving _ _ => List.last (having (exec qb c)) EmptyString
  | CallBuild =>
    drop_bytes (String.length (statement_head qb)) (fst (fst (Build qb)))
  end.

(** The texts the calls of a sequence produced, in call order. *)
Fixpoint run_texts (qb : QueryBuilder) (calls : list call) : list string :=
  match calls with
  | [] => []
  | c :: cs => produced qb c :: run_texts (exec qb c) cs
  end.

(** The marked texts of a sequence of calls whose first placeholder has
    the number [start], each call numbering on from the one before. *)
Fixpoint run_pieces (qb : QueryBuilder) (start : Z) (calls : list call)
    : list (list piece) :=
  match calls with
  | [] => []
  | c :: cs =>
    call_pieces qb start c
    :: run_pieces qb (start + Z.of_nat (embedded qb c)) cs
  end.

(** The marked texts written out, each in the style of its call. *)
Fixpoint render_all (d : DBType) (calls : list call)
    (pss : list (list piece)) : list string :=
  match calls, pss with
  | c :: cs, ps :: pss' => render (call_style d c) ps :: render_all d cs pss'
  | _, _ => []
  end.

(** *** Definitions for the properties of the other builder calls *)

(** The quote character [escapeIdentifier] uses for a dialect value. *)
Definition quote_of (d : DBType) : ascii :=
  if String.eqb d PostgreSQL then ascii_of 34 else "`".

(** The number of bytes of [s] equal to [q]. *)
Fixpoint count_byte (q : ascii) (s : string) : nat :=
  match s with
  | EmptyString => 0%nat
  | String c t => if Ascii.eqb q c then S (count_byte q t) else count_byte q t
  end.

(** The calls that set a clause without allocating a placeholder. *)
Inductive clause_call : Type :=
| SetDistinct
| SetAggregate (function column : string)
| SetLeftJoin (joinTable onCondition : string)
| SetInnerJoin (joinTable onCondition : string)
| SetRightJoin (joinTable onCondition : string)
| SetGroupBy (cols : list string)
| SetOrderBy (column direction : string)
    (allowedColumns : option (gmap string bool))
| SetLimit (n : Z)
| SetOffset (n : Z).

Definition apply_clause (unicode_ToUpper : Z -> Z) (qb : QueryBuilder)
    (k : clause_call) : QueryBuilder :=
  match k with
  | SetDistinct => Distinct qb
  | SetAggregate function column => Aggregate qb function column
  | SetLeftJoin joinTable onCondition => LeftJoin qb joinTable onCondition
  | SetInnerJoin joinTable onCondition => InnerJoin qb joinTable onCondition
  | SetRightJoin joinTable onCondition => RightJoin qb joinTable onCondition
  | SetGroupBy cols => GroupBy qb cols
  | SetOrderBy column direction allowedColumns =>
    OrderBy unicode_ToUpper qb column direction allowedColumns
  | SetLimit n => Limit qb n
  | SetOffset n => Offset qb n
  end.

(** Every byte of [s] is a decimal digit or the minus sign. *)
Fixpoint decimal_text (s : string) : Prop :=
  match s with
  | EmptyString => True
  | String c t => (byte_of c = 45 \/ 48 <= byte_of c <= 57) /\ decimal_text t
  end.

(** * Properties *)

(** Case analysis on the comparisons of a goal, closing the cases that
    contradict the hypotheses. *)
Ltac bool_cases :=
  repeat match goal with
  | |- context [?a <=? ?b] => destruct (Z.leb_spec a b); try lia
  | |- context [?a <? ?b] => destruct (Z.ltb_spec a b); try lia
  | |- context [?a =? ?b] => destruct (Z.eqb_spec a b); try lia
  end.

(** ** The model runs: decimal rendering and the tests of the repository *)

Example itoa_examples :
  itoa 0 = "0" /\ itoa 15 = "15" /\ itoa (-7) = "-7".
Proof. repeat split; reflexivity. Qed.

(** Decoding and encoding on well-formed and ill-formed input: the euro
    sign, a four-byte rune, an overlong form, a surrogate, a value above
    the last code point and a truncated sequence. *)
Example utf8_examples :
  range_runes (bytes [0xE2; 0x82; 0xAC; 0x41]) = [0x20AC; 0x41]
  /\ range_runes (bytes [0xF0; 0x9F; 0x98; 0x80]) = [0x1F600]
  /\ range_runes (bytes [0xC0; 0x80]) = [RuneError; RuneError]
  /\ range_runes (bytes [0xED; 0xA0; 0x80]) = [RuneError; RuneError; RuneError]
  /\ range_runes (bytes [0xF4; 0x90; 0x80; 0x80])
     = [RuneError; RuneError; RuneError; RuneError]
  /\ range_runes (bytes [0xE2; 0x82]) = [RuneError; RuneError]
  /\ EncodeRune 0x20AC = bytes [0xE2; 0x82; 0xAC]
  /\ EncodeRune 0x1F600 = bytes [0xF0; 0x9F; 0x98; 0x80]
  /\ EncodeRune 0xD800 = bytes [0xEF; 0xBF; 0xBD]
  /\ ValidString (bytes [0xEF; 0xBF; 0xBD]) = true
  /\ ValidString (bytes [0xFF]) = false.
Proof. repeat split; vm_compute; reflexivity. Qed.

(** [fmt.Sprintf] with too few, too many and ill-typed operands. *)
Example Sprintf_examples :
  Sprintf "%s=%d" [FString "n"; FInt (-3)] = "n=-3"
  /\ Sprintf "%s and %s" [FString "a"] = "a and %!s(MISSING)"
  /\ Sprintf "%d%%" [FInt 5; FString "x"] = "5%%!(EXTRA string=x)"
  /\ Sprintf "%d" [FString "x"] = "%!d(string=x)".
Proof. repeat split; vm_compute; reflexivity. Qed.

(** The three tests of [postgre_test.go]. *)
Example TestPostgresSelect :
  fst (fst (Build (NewQueryBuilder "postgres" "new_table" ["new_id"; "new_name"])))
  = "SELECT " +:+ dquote +:+ "new_id" +:+ dquote +:+ ", " +:+ dquote
    +:+ "new_name" +:+ dquote +:+ " FROM " +:+ dquote +:+ "new_table" +:+ dquote.
Proof. vm_compute. reflexivity. Qed.

Example TestPostgresSelectWhere :
  fst (Build (Where (NewQueryBuilder "postgres" "new_table" ["new_id"; "new_name"])
                "new_id = ?" [AString "abc123"]))
  = ("SELECT " +:+ dquote +:+ "new_id" +:+ dquote +:+ ", " +:+ dquote
     +:+ "new_name" +:+ dquote +:+ " FROM " +:+ dquote +:+ "new_table" +:+ dquote
     +:+ " WHERE new_id = $1",
     [AString "abc123"]).
Proof. vm_compute. reflexivity. Qed.

Example TestPostgresSelectWhereWithOrderBy :
  fst (Build (OrderBy (fun r => r)
                (Where (NewQueryBuilder "postgres" "new_table"
                          ["new_seq"; "new_id"; "new_name"])
                   "new_id = ?" [AString "abc123"])
                "new_seq" "DESC" None))
  = ("SELECT " +:+ dquote +:+ "new_seq" +:+ dquote +:+ ", " +:+ dquote
     +:+ "new_id" +:+ dquote +:+ ", " +:+ dquote +:+ "new_name" +:+ dquote
     +:+ " FROM " +:+ dquote +:+ "new_table" +:+ dquote
     +:+ " WHERE new_id = $1 ORDER BY " +:+ dquote +:+ "new_seq" +:+ dquote
     +:+ " DESC",
     [AString "abc123"]).
Proof. vm_compute. reflexivity. Qed.

(** ** Strings: the few facts the proofs use *)

Lemma str_app_nil_r (s : string) : s +:+ EmptyString = s.
Proof. induction s as [|c s IH]; simpl; [reflexivity | now rewrite IH]. Qed.

Lemma str_app_assoc (s1 s2 s3 : string) :
  (s1 +:+ s2) +:+ s3 = s1 +:+ (s2 +:+ s3).
Proof. induction s1 as [|c s1 IH]; simpl; [reflexivity | now rewrite IH]. Qed.

Lemma str_app_length (s1 s2 : string) :
  String.length (s1 +:+ s2) = (String.length s1 + String.length s2)%nat.
Proof. induction s1 as [|c s1 IH]; simpl; [reflexivity | now rewrite IH]. Qed.

Lemma byte_of_bounds (c : ascii) : 0 <= byte_of c < 256.
Proof.
  unfold byte_of. pose proof (N_ascii_bounded c). lia.
Qed.

Lemma ascii_of_byte_of (c : ascii) : ascii_of (byte_of c) = c.
Proof.
  unfold ascii_of, byte_of. rewrite N2Z.id. apply ascii_N_embedding.
Qed.

Lemma byte_of_ascii_of (z : Z) : 0 <= z < 256 -> byte_of (ascii_of z) = z.
Proof.
  intros H. unfold ascii_of, byte_of.
  rewrite N_ascii_embedding by lia. lia.
Qed.

(** ** [escapeIdentifier] *)

Lemma ReplaceAll_one_byte (q : ascii) (name : string) :
  ReplaceAll name (String q EmptyString) (String q (String q EmptyString))
  = doubled q name.
Proof.
  unfold ReplaceAll. induction name as [|c t IH]; simpl; [reflexivity|].
  rewrite andb_true_r. destruct (Ascii.eqb q c); simpl; now rewrite IH.
Qed.

Lemma escapeIdentifier_postgres (name : string) :
  name <> "*" ->
  escapeIdentifier PostgreSQL name
  = dquote +:+ doubled (ascii_of 34) name +:+ dquote.
Proof.
  intros Hne. unfold escapeIdentifier.
  destruct (String.eqb_spec name "*") as [->|_]; [congruence|].
  change (String.eqb PostgreSQL PostgreSQL) with true. cbv iota.
  change (dquote +:+ dquote) with
    (String (ascii_of 34) (String (ascii_of 34) EmptyString)).
  unfold dquote at 3. rewrite ReplaceAll_one_byte. reflexivity.
Qed.

Lemma escapeIdentifier_backtick (d : DBType) (name : string) :
  name <> "*" -> d <> PostgreSQL ->
  escapeIdentifier d name = "`" +:+ doubled "`" name +:+ "`".
Proof.
  intros Hne Hd. unfold escapeIdentifier.
  destruct (String.eqb_spec name "*") as [->|_]; [congruence|].
  destruct (String.eqb_spec d PostgreSQL) as [->|_]; [congruence|].
  change "``" with (String "`" (String "`" EmptyString)).
  rewrite ReplaceAll_one_byte. reflexivity.
Qed.

Lemma read_body_doubled (q : ascii) (name : string) :
  read_body q (doubled q name +:+ String q EmptyString)
  = Some (name, EmptyString).
Proof.
  induction name as [|c t IH]; simpl.
  - now rewrite Ascii.eqb_refl.
  - destruct (Ascii.eqb q c) eqn:E; simpl.
    + apply Ascii.eqb_eq in E. subst c.
      rewrite !Ascii.eqb_refl, IH. reflexivity.
    + rewrite E, IH. reflexivity.
Qed.

Lemma read_quoted_doubled (q : ascii) (name : string) :
  read_quoted q (String q EmptyString +:+ doubled q name +:+ String q EmptyString)
  = Some (name, EmptyString).
Proof.
  simpl. rewrite Ascii.eqb_refl. apply read_body_doubled.
Qed.

(** C6. [escapeIdentifier] returns the wildcard [*] unchanged; any other
    name is wrapped in the dialect's quote character, the double quote for
    PostgreSQL and the backtick for MariaDB, with every occurrence of that
    character in the name doubled, so that a SQL lexer reading the result
    as a delimited identifier consumes all of it and gets the name back. *)
Theorem escapeIdentifier_spec (name : string) :
  (forall d, escapeIdentifier d "*" = "*") /\
  (name <> "*" ->
   escapeIdentifier PostgreSQL name
     = dquote +:+ doubled (ascii_of 34) name +:+ dquote
   /\ escapeIdentifier MariaDB name = "`" +:+ doubled "`" name +:+ "`"
   /\ read_quoted (ascii_of 34) (escapeIdentifier PostgreSQL name)
      = Some (name, EmptyString)
   /\ read_quoted "`" (escapeIdentifier MariaDB name)
      = Some (name, EmptyString)).
Proof.
  split; [reflexivity|]. intros Hne.
  rewrite escapeIdentifier_postgres by assumption.
  rewrite (escapeIdentifier_backtick MariaDB) by (assumption || discriminate).
  repeat split.
  - apply (read_quoted_doubled (ascii_of 34)).
  - apply (read_quoted_doubled "`").
Qed.

Lemma escapeIdentifier_spec_witness :
  ("a" +:+ dquote +:+ "b`c") <> "*" /\
  escapeIdentifier PostgreSQL ("a" +:+ dquote +:+ "b`c")
    = dquote +:+ "a" +:+ dquote +:+ dquote +:+ "b`c" +:+ dquote /\
  escapeIdentifier MariaDB ("a" +:+ dquote +:+ "b`c")
    = "`a" +:+ dquote +:+ "b``c`".
Proof.
  assert (Hne : ("a" +:+ dquote +:+ "b`c") <> "*") by discriminate.
  destruct (escapeIdentifier_spec ("a" +:+ dquote +:+ "b`c")) as [_ H].
  destruct (H Hne) as (Hp & Hm & _).
  split; [exact Hne|]. split; [rewrite Hp | rewrite Hm]; reflexivity.
Defined.

(** ** [fmt.Sprintf] on the formats of the source *)

Lemma Sprintf_dollar (n : Z) : Sprintf "$%d" [FInt n] = "$" +:+ itoa n.
Proof. simpl. now rewrite str_app_nil_r. Qed.

Lemma Sprintf_order (a b : string) :
  Sprintf "%s %s" [FString a; FString b] = a +:+ " " +:+ b.
Proof. simpl. now rewrite str_app_nil_r. Qed.

Lemma Sprintf_in (a b : string) :
  Sprintf "%s IN (%s)" [FString a; FString b] = a +:+ " IN (" +:+ b +:+ ")".
Proof. reflexivity. Qed.

Lemma Sprintf_between (a b : string) :
  Sprintf "%s BETWEEN %s AND %s" [FString a; FString b]
  = a +:+ " BETWEEN " +:+ b +:+ " AND %!s(MISSING)".
Proof. reflexivity. Qed.

Lemma Sprintf_limit (n : Z) :
  Sprintf " LIMIT $%d" [FInt n] = " LIMIT $" +:+ itoa n.
Proof. simpl. now rewrite str_app_nil_r. Qed.

Lemma Sprintf_offset (n : Z) :
  Sprintf " OFFSET $%d" [FInt n] = " OFFSET $" +:+ itoa n.
Proof. simpl. now rewrite str_app_nil_r. Qed.

(** ** [validateDirection] and [OrderBy] *)




Section OrderBy.

Variable up : Z -> Z.

Lemma validateDirection_cases (direction : string) :
  validateDirection up direction
  = if String.eqb (ToUpper up direction) "ASC" then "ASC" else "DESC".
Proof.
  unfold validateDirection.
  destruct (String.eqb_spec (ToUpper up direction) "ASC") as [E|_];
    [now rewrite E|].
  destruct (String.eqb_spec (ToUpper up direction) "DESC") as [E|_];
    [now rewrite E | reflexivity].
Qed.


Lemma OrderBy_orderBy (qb : QueryBuilder) (column direction : string)
    (allowed : option (gmap string bool)) :
  OrderBy up qb column direction allowed
  = set_orderBy qb
      (escapeIdentifier (dbType qb) (sort_column column allowed)
       +:+ " " +:+ validateDirection up direction).
Proof.
  unfold OrderBy, sort_column. rewrite Sprintf_order.
  destruct allowed as [m|]; [|reflexivity].
  destruct (m !! column) eqn:E; case_decide as H; try reflexivity.
  - exfalso. apply H. eauto.
  - destruct H as [x Hx]. congruence.
Qed.


End OrderBy.


(** The two orderings the specification lists, and a direction in lower
    case. *)
Example OrderBy_examples :
  orderBy (OrderBy (fun r => r) (NewQueryBuilder PostgreSQL "t" []) "x" "sideways" None)
  = dquote +:+ "x" +:+ dquote +:+ " DESC"
  /\ orderBy (OrderBy (fun r => r) (NewQueryBuilder PostgreSQL "t" [])
                "unsafe_col" "ASC" (Some {[ "id" := true ]}))
     = dquote +:+ "id" +:+ dquote +:+ " ASC"
  /\ orderBy (OrderBy (fun r => r) (NewQueryBuilder MariaDB "t" [])
                "name" "asc" (Some {[ "name" := false ]}))
     = "`name` ASC".
Proof. repeat split; vm_compute; reflexivity. Qed.

(** ** [Build] *)

Lemma len_pos {A : Type} (l : list A) :
  (0 <? len l) = match l with [] => false | _ => true end.
Proof. destruct l; [reflexivity|]. unfold len. simpl length. apply Z.ltb_lt. lia. Qed.

Lemma Build_eq (qb : QueryBuilder) :
  Build qb
  = (select_clause qb +:+ from_clause qb +:+ join_clause qb
     +:+ where_clause qb +:+ order_clause qb
     +:+ limit_clause qb +:+ offset_clause qb,
     args qb ++ paging_args qb,
     set_args qb (args qb ++ paging_args qb)).
Proof.
  unfold Build, select_clause, from_clause, join_clause, where_clause,
    order_clause, limit_clause, offset_clause, paging_args.
  rewrite !len_pos, Sprintf_limit.
  destruct qb as [d t cols js cs g h o l off a dis].
  unfold set_args;
    cbn [joins conditions orderBy limit offset args columns table].
  destruct js as [|j js], cs as [|c cs], (String.eqb o EmptyString),
    (0 <? l);
    cbn [negb joins conditions orderBy limit offset args columns table];
    destruct (0 <? off);
    cbn [joins conditions orderBy limit offset args columns table
         dbType groupBy having distinct];
    rewrite ?Sprintf_offset, ?app_nil_r, <- ?app_assoc; cbn [app];
    repeat rewrite str_app_assoc; repeat rewrite str_app_nil_r;
    cbn [String.append]; reflexivity.
Qed.

Lemma Build_text (qb : QueryBuilder) :
  fst (fst (Build qb))
  = statement_head qb +:+ limit_clause qb +:+ offset_clause qb.
Proof.
  rewrite Build_eq. unfold statement_head. cbn [fst].
  now rewrite !str_app_assoc.
Qed.

(** C3. [Build] writes LIMIT and OFFSET with [$n] markers whatever the
    dialect, each only when its value is strictly positive, numbered from
    the argument count, and binds the values in LIMIT-then-OFFSET order. *)
Theorem Build_limit_offset (qb : QueryBuilder) :
  fst (Build qb)
  = (statement_head qb
     +:+ (if 0 <? limit qb
          then " LIMIT $" +:+ itoa (int_add (len (args qb)) 1)
          else EmptyString)
     +:+ (if 0 <? offset qb
          then " OFFSET $"
               +:+ itoa (if 0 <? limit qb
                         then int_add (int_add (len (args qb)) 1) 1
                         else int_add (len (args qb)) 1)
          else EmptyString),
     args qb
     ++ (if 0 <? limit qb then [AInt (limit qb)] else [])
     ++ (if 0 <? offset qb then [AInt (offset qb)] else []))
  /\ args (snd (Build qb)) = snd (fst (Build qb))
  /\ (forall d : DBType, fst (Build (set_dbType qb d)) = fst (Build qb))
  /\ fst (Build (Offset (Limit (NewQueryBuilder MariaDB "t" []) 10) 5))
     = ("SELECT * FROM `t` LIMIT $1 OFFSET $2", [AInt 10; AInt 5])
  /\ fst (Build (Offset (Limit (NewQueryBuilder PostgreSQL "t" []) 10) 5))
     = ("SELECT * FROM " +:+ dquote +:+ "t" +:+ dquote
        +:+ " LIMIT $1 OFFSET $2", [AInt 10; AInt 5])
  /\ fst (Build (Offset (Limit (NewQueryBuilder PostgreSQL "t" []) 0) (-3)))
     = ("SELECT * FROM " +:+ dquote +:+ "t" +:+ dquote, []).
Proof.
  split; [|split; [|split; [|split; [|split]]]].
  - rewrite Build_eq. cbn [fst]. unfold statement_head, limit_clause,
      offset_clause, paging_args. now rewrite !str_app_assoc.
  - rewrite Build_eq. reflexivity.
  - intros d. rewrite !Build_eq. reflexivity.
  - vm_compute. reflexivity.
  - vm_compute. reflexivity.
  - vm_compute. reflexivity.
Qed.

(** C8. The text of [Build] is SELECT, FROM, the joins, WHERE with the
    conditions joined by AND, ORDER BY, LIMIT, OFFSET, in this order, each
    optional clause absent when its state is empty; joins and conditions
    are kept in call order; the distinct flag and the GROUP BY and HAVING
    fragments have no part in the text. *)
Theorem Build_clause_order (qb : QueryBuilder) :
  fst (fst (Build qb))
  = ("SELECT " +:+ Join (columns qb) ", ")
    +:+ (" FROM " +:+ table qb)
    +:+ match joins qb with
        | [] => EmptyString
        | _ => " " +:+ Join (joins qb) " "
        end
    +:+ match conditions qb with
        | [] => EmptyString
        | _ => " WHERE " +:+ Join (conditions qb) " AND "
        end
    +:+ (if String.eqb (orderBy qb) EmptyString then EmptyString
         else " ORDER BY " +:+ orderBy qb)
    +:+ limit_clause qb +:+ offset_clause qb
  /\ (forall (dis : bool) (g h : list string),
        fst (fst (Build (set_distinct (set_groupBy (set_having qb h) g) dis)))
        = fst (fst (Build qb)))
  /\ (forall t on_,
        joins (LeftJoin qb t on_)
        = joins qb
          ++ ["LEFT JOIN " +:+ escapeIdentifier (dbType qb) t +:+ " ON " +:+ on_]
        /\ joins (InnerJoin qb t on_)
           = joins qb
             ++ ["INNER JOIN " +:+ escapeIdentifier (dbType qb) t +:+ " ON " +:+ on_]
        /\ joins (RightJoin qb t on_)
           = joins qb
             ++ ["RIGHT JOIN " +:+ escapeIdentifier (dbType qb) t +:+ " ON " +:+ on_])
  /\ (forall c a, exists fragment,
        conditions (Where qb c a) = conditions qb ++ [fragment])
  /\ fst (Build (Having (GroupBy (Distinct
              (Where (Where (InnerJoin (LeftJoin
                 (NewQueryBuilder MariaDB "t" ["a"; "b"]) "u" "u.id = t.id")
                    "v" "v.id = t.id") "a = ?" [AInt 1]) "b = ?" [AInt 2]))
              ["dept"]) "count(*) > ?" [AInt 3]))
     = ("SELECT `a`, `b` FROM `t` LEFT JOIN `u` ON u.id = t.id "
        +:+ "INNER JOIN `v` ON v.id = t.id WHERE a = ? AND b = ?",
        [AInt 1; AInt 2; AInt 3]).
Proof.
  split; [|split; [|split; [|split]]].
  - rewrite Build_eq. reflexivity.
  - intros dis g h. rewrite !Build_eq. reflexivity.
  - intros t on_. unfold LeftJoin, InnerJoin, RightJoin. cbn [joins set_joins].
    repeat split; do 2 f_equal; simpl; now rewrite str_app_nil_r.
  - intros c a. eexists. reflexivity.
  - vm_compute. reflexivity.
Qed.

Lemma paging_args_length (qb : QueryBuilder) :
  0 < limit qb \/ 0 < offset qb -> (0 < length (paging_args qb))%nat.
Proof.
  intros H. unfold paging_args.
  destruct (Z.ltb_spec 0 (limit qb)), (Z.ltb_spec 0 (offset qb));
    simpl; lia.
Qed.

(** C9. [Build] is not idempotent: when the limit or the offset is
    strictly positive a second [Build] on the same builder binds the
    LIMIT and OFFSET values once more, so the argument list it returns is
    longer and holds them twice, and it numbers the LIMIT and OFFSET
    markers from the longer argument list. *)
Theorem Build_twice (qb : QueryBuilder) :
  0 < limit qb \/ 0 < offset qb ->
  let first := Build qb in
  let second := Build (snd first) in
  snd (fst first) = args qb ++ paging_args qb
  /\ snd (fst second) = snd (fst first) ++ paging_args qb
  /\ (length (snd (fst first)) < length (snd (fst second)))%nat
  /\ fst (fst second)
     = statement_head qb
       +:+ (if 0 <? limit qb
            then " LIMIT $" +:+ itoa (int_add (len (snd (fst first))) 1)
            else EmptyString)
       +:+ (if 0 <? offset qb
            then " OFFSET $"
                 +:+ itoa (if 0 <? limit qb
                           then int_add (int_add (len (snd (fst first))) 1) 1
                           else int_add (len (snd (fst first))) 1)
            else EmptyString)
  /\ second <> first.
Proof.
  intros H. cbv zeta. rewrite !Build_eq. cbn [fst snd].
  pose proof (paging_args_length qb H) as Hlen.
  assert (Hp : paging_args (set_args qb (args qb ++ paging_args qb))
               = paging_args qb) by reflexivity.
  rewrite Hp. cbn [args set_args].
  split; [reflexivity|]. split; [reflexivity|]. split.
  { rewrite !length_app. lia. }
  split.
  { unfold limit_clause, offset_clause. cbn [limit offset args set_args].
    unfold statement_head. now rewrite !str_app_assoc. }
  intros E. apply (f_equal (fun x => length (snd (fst x)))) in E.
  cbn [fst snd] in E. rewrite !length_app in E. lia.
Qed.

Lemma Build_twice_witness :
  let qb := Offset (Limit (NewQueryBuilder PostgreSQL "t" []) 10) 5 in
  (0 < limit qb \/ 0 < offset qb)
  /\ snd (fst (Build (snd (Build qb)))) = [AInt 10; AInt 5; AInt 10; AInt 5]
  /\ fst (fst (Build (snd (Build qb))))
     = "SELECT * FROM " +:+ dquote +:+ "t" +:+ dquote +:+ " LIMIT $3 OFFSET $4".
Proof.
  cbv zeta.
  assert (H : 0 < limit (Offset (Limit (NewQueryBuilder PostgreSQL "t" []) 10) 5)
              \/ 0 < offset (Offset (Limit (NewQueryBuilder PostgreSQL "t" []) 10) 5))
    by (left; reflexivity).
  destruct (Build_twice _ H) as (_ & H2 & _ & H4 & _).
  split; [exact H|]. split; [rewrite H2 | rewrite H4]; vm_compute; reflexivity.
Defined.

(** ** 64-bit arithmetic *)

Lemma wrap_id (z : Z) : int_min <= z <= int_max -> wrap z = z.
Proof.
  unfold int_min, int_max, wrap. intros H.
  rewrite Z.mod_small by lia. lia.
Qed.

Lemma int_add_small (a b : Z) :
  int_min <= a + b <= int_max -> int_add a b = a + b.
Proof. apply wrap_id. Qed.

(** ** [generatePlaceholders] and [WhereIn] *)

Lemma placeholder_at_postgres (startIdx : Z) (i : nat) :
  placeholder_at PostgreSQL startIdx i
  = "$" +:+ itoa (int_add startIdx (Z.of_nat i)).
Proof.
  unfold placeholder_at. cbn [String.eqb PostgreSQL]. apply Sprintf_dollar.
Qed.

Lemma placeholder_at_other (d : DBType) (startIdx : Z) (i : nat) :
  d <> PostgreSQL -> placeholder_at d startIdx i = "?".
Proof.
  intros H. unfold placeholder_at.
  destruct (String.eqb_spec d PostgreSQL); [contradiction | reflexivity].
Qed.

Lemma map_const_seq {A : Type} (x : A) (f : nat -> A) (k n : nat) :
  (forall i, f i = x) -> map f (seq k n) = repeat x n.
Proof.
  intros Hf. revert k. induction n as [|n IH]; intros k; simpl;
    [reflexivity | now rewrite Hf, IH].
Qed.

Lemma generatePlaceholders_postgres (startIdx : Z) (count : nat) :
  generatePlaceholders PostgreSQL startIdx count
  = Join (map (fun i => "$" +:+ itoa (int_add startIdx (Z.of_nat i)))
            (seq 0 count)) ", ".
Proof.
  unfold generatePlaceholders. f_equal. apply map_ext.
  intros i. apply placeholder_at_postgres.
Qed.

Lemma generatePlaceholders_other (d : DBType) (startIdx : Z) (count : nat) :
  d <> PostgreSQL ->
  generatePlaceholders d startIdx count = Join (repeat "?" count) ", ".
Proof.
  intros H. unfold generatePlaceholders. f_equal.
  apply map_const_seq. intros i. now apply placeholder_at_other.
Qed.

Lemma generatePlaceholders_markers (startIdx : Z) (count : nat) :
  int_min <= startIdx -> startIdx + Z.of_nat count <= int_max + 1 ->
  generatePlaceholders PostgreSQL startIdx count
  = Join (markers startIdx count) ", ".
Proof.
  intros Hlo Hhi. rewrite generatePlaceholders_postgres. f_equal.
  unfold markers. apply map_ext_in. intros i Hi. apply in_seq in Hi. destruct Hi as [_ Hi].
  rewrite int_add_small; [reflexivity | unfold int_min, int_max in *; lia].
Qed.

Lemma WhereIn_eq (qb : QueryBuilder) (column : string) (values : list any) :
  WhereIn qb column values
  = set_args
      (set_conditions qb
         (conditions qb
          ++ [escapeIdentifier (dbType qb) column +:+ " IN ("
              +:+ generatePlaceholders (dbType qb) (int_add (len (args qb)) 1)
                    (length values)
              +:+ ")"]))
      (args qb ++ values).
Proof. unfold WhereIn. now rewrite Sprintf_in. Qed.

(** C5. [WhereIn] escapes the column, writes one placeholder per value,
    numbered on from the next index for PostgreSQL and a [?] each for
    MariaDB, joined with a comma and a space inside [IN (...)], appends
    that condition and appends the values in their order. *)
Theorem WhereIn_spec (qb : QueryBuilder) (column : string)
    (values : list any) :
  WhereIn (set_dbType qb PostgreSQL) column values
  = set_args
      (set_conditions (set_dbType qb PostgreSQL)
         (conditions qb
          ++ [escapeIdentifier PostgreSQL column +:+ " IN ("
              +:+ Join (map (fun i => "$" +:+ itoa (int_add (int_add (len (args qb)) 1)
                                                      (Z.of_nat i)))
                          (seq 0 (length values))) ", "
              +:+ ")"]))
      (args qb ++ values)
  /\ (len (args qb) + len values < int_max ->
   WhereIn (set_dbType qb PostgreSQL) column values
   = set_args
       (set_conditions (set_dbType qb PostgreSQL)
          (conditions qb
           ++ [escapeIdentifier PostgreSQL column +:+ " IN ("
               +:+ Join (markers (len (args qb) + 1) (length values)) ", "
               +:+ ")"]))
       (args qb ++ values))
  /\ WhereIn (set_dbType qb MariaDB) column values
     = set_args
         (set_conditions (set_dbType qb MariaDB)
            (conditions qb
             ++ [escapeIdentifier MariaDB column +:+ " IN ("
                 +:+ Join (repeat "?" (length values)) ", " +:+ ")"]))
         (args qb ++ values)
  /\ length (markers (len (args qb) + 1) (length values)) = length values
  /\ length (repeat "?" (length values)) = length values
  /\ (let qb' := WhereIn (NewQueryBuilder PostgreSQL "t" []) "status"
                   [AInt 1; AInt 2; AInt 3] in
      conditions qb' = [dquote +:+ "status" +:+ dquote +:+ " IN ($1, $2, $3)"]
      /\ args qb' = [AInt 1; AInt 2; AInt 3]).
Proof.
  split; [|split; [|split; [|split; [|split]]]].
  - rewrite WhereIn_eq. cbn [dbType set_dbType args conditions].
    now rewrite generatePlaceholders_postgres.
  - intros Hb. rewrite WhereIn_eq. cbn [dbType set_dbType args conditions].
    unfold len in *.
    rewrite int_add_small by (unfold int_min, int_max in *; lia).
    rewrite generatePlaceholders_markers
      by (unfold int_min, int_max in *; lia).
    reflexivity.
  - rewrite WhereIn_eq. cbn [dbType set_dbType args conditions].
    rewrite generatePlaceholders_other by discriminate. reflexivity.
  - unfold markers. now rewrite length_map, length_seq.
  - apply repeat_length.
  - split; vm_compute; reflexivity.
Qed.

Lemma WhereIn_spec_witness :
  let qb := Where (NewQueryBuilder PostgreSQL "t" []) "a = ?" [AString "x"] in
  len (args qb) + len [AInt 7; AInt 8] < int_max
  /\ conditions (WhereIn (set_dbType qb PostgreSQL) "status" [AInt 7; AInt 8])
     = ["a = $1"; dquote +:+ "status" +:+ dquote +:+ " IN ($2, $3)"]
  /\ args (WhereIn (set_dbType qb PostgreSQL) "status" [AInt 7; AInt 8])
     = [AString "x"; AInt 7; AInt 8].
Proof.
  cbv zeta.
  assert (Hb : len (args (Where (NewQueryBuilder PostgreSQL "t" []) "a = ?"
                            [AString "x"]))
               + len [AInt 7; AInt 8] < int_max) by (vm_compute; reflexivity).
  destruct (WhereIn_spec
              (Where (NewQueryBuilder PostgreSQL "t" []) "a = ?" [AString "x"])
              "status" [AInt 7; AInt 8]) as (_ & H & _).
  split; [exact Hb|]. rewrite (H Hb). split; vm_compute; reflexivity.
Defined.

(** ** [replacePlaceholders]: the dialect test *)

Lemma replacePlaceholders_other (d : DBType) (condition : string)
    (startIdx : Z) :
  d <> MariaDB ->
  replacePlaceholders d condition startIdx
  = replacePlaceholders PostgreSQL condition startIdx.
Proof.
  intros H. unfold replacePlaceholders.
  destruct (String.eqb_spec d MariaDB); [contradiction | reflexivity].
Qed.

(** ** Dialects other than the two named ones *)

(** C10, as stated, fails: for the dialect string [sqlite], which is not
    PostgreSQL, [replacePlaceholders] does not return the condition as it
    does for MariaDB but numbers the placeholder. *)
Lemma unknown_dialect_counterexample :
  "sqlite" <> PostgreSQL
  /\ replacePlaceholders MariaDB "a = ?" 1 = "a = ?"
  /\ replacePlaceholders "sqlite" "a = ?" 1 = "a = $1"
  /\ replacePlaceholders "sqlite" "a = ?" 1
     <> replacePlaceholders MariaDB "a = ?" 1.
Proof.
  split; [discriminate|]. split; [reflexivity|].
  split; [vm_compute; reflexivity | vm_compute; discriminate].
Qed.

(** C10, amended. For every dialect value other than PostgreSQL,
    [escapeIdentifier] and [generatePlaceholders] behave as for MariaDB
    (backticks, repeated [?]).  [replacePlaceholders] tests for MariaDB
    instead: it returns the condition unchanged for MariaDB only, and for
    every other value, unknown dialects included, it behaves as for
    PostgreSQL. *)
Theorem unknown_dialect (d : DBType) :
  (d <> PostgreSQL ->
   (forall name, escapeIdentifier d name = escapeIdentifier MariaDB name)
   /\ (forall name, name <> "*" ->
         escapeIdentifier d name = "`" +:+ doubled "`" name +:+ "`")
   /\ (forall startIdx count,
         generatePlaceholders d startIdx count
         = generatePlaceholders MariaDB startIdx count)
   /\ (forall startIdx count,
         generatePlaceholders d startIdx count = Join (repeat "?" count) ", "))
  /\ (d <> MariaDB ->
      forall condition startIdx,
        replacePlaceholders d condition startIdx
        = replacePlaceholders PostgreSQL condition startIdx)
  /\ (forall condition startIdx,
        replacePlaceholders MariaDB condition startIdx = condition).
Proof.
  split; [|split].
  - intros Hd. split; [|split; [|split]].
    + intros name. unfold escapeIdentifier.
      destruct (String.eqb_spec d PostgreSQL); [contradiction | reflexivity].
    + intros name Hn. now apply escapeIdentifier_backtick.
    + intros startIdx count.
      rewrite !generatePlaceholders_other by (assumption || discriminate).
      reflexivity.
    + intros startIdx count. now apply generatePlaceholders_other.
  - intros Hd condition startIdx. now apply replacePlaceholders_other.
  - intros condition startIdx. reflexivity.
Qed.

Lemma unknown_dialect_witness :
  "sqlite" <> PostgreSQL /\ "sqlite" <> MariaDB
  /\ escapeIdentifier "sqlite" "a`b" = "`a``b`"
  /\ generatePlaceholders "sqlite" 4 3 = "?, ?, ?"
  /\ replacePlaceholders "sqlite" "a = ? OR b = ?" 4 = "a = $4 OR b = $5".
Proof.
  assert (H1 : "sqlite" <> PostgreSQL) by discriminate.
  assert (H2 : "sqlite" <> MariaDB) by discriminate.
  destruct (unknown_dialect "sqlite") as (Ha & Hb & _).
  destruct (Ha H1) as (_ & He & _ & Hg).
  split; [exact H1|]. split; [exact H2|]. split; [|split].
  - rewrite He by discriminate. reflexivity.
  - rewrite Hg. reflexivity.
  - rewrite (Hb H2). vm_compute. reflexivity.
Defined.

(** ** [WhereBetween] *)

Lemma WhereBetween_eq (qb : QueryBuilder) (column : string)
    (start end_ : any) :
  WhereBetween qb column start end_
  = set_args
      (set_conditions qb
         (conditions qb
          ++ [escapeIdentifier (dbType qb) column +:+ " BETWEEN "
              +:+ generatePlaceholders (dbType qb)
                    (int_add (len (args qb)) 1) 2
              +:+ " AND %!s(MISSING)"]))
      (args qb ++ [start; end_]).
Proof. unfold WhereBetween. now rewrite Sprintf_between. Qed.

(** C2. What the source does on [WhereBetween("age", 18, 65)] for
    PostgreSQL with no prior argument: the two values are bound in the
    order start, end, and two placeholders are allocated, but the format
    receives them as one operand, so the condition is not
    [column BETWEEN $1 AND $2]. *)
Theorem WhereBetween_fragment :
  let qb := WhereBetween (NewQueryBuilder PostgreSQL "t" []) "age"
              (AInt 18) (AInt 65) in
  conditions qb
  = [dquote +:+ "age" +:+ dquote +:+ " BETWEEN $1, $2 AND %!s(MISSING)"]
  /\ conditions qb <> [dquote +:+ "age" +:+ dquote +:+ " BETWEEN $1 AND $2"]
  /\ args qb = [AInt 18; AInt 65].
Proof.
  cbv zeta. split; [|split].
  - vm_compute. reflexivity.
  - vm_compute. discriminate.
  - vm_compute. reflexivity.
Qed.

(** ** UTF-8: what [range] reads and [WriteRune] writes *)

Lemma range_from_drop (k : nat) (s : string) :
  range_from k s = range_runes (drop_bytes k s).
Proof.
  revert s. induction k as [|k IH]; intros s; [reflexivity|].
  destruct s as [|c t]; [reflexivity|]. simpl. apply IH.
Qed.

Lemma valid_from_drop (k : nat) (s : string) :
  valid_from k s = ValidString (drop_bytes k s).
Proof.
  revert s. induction k as [|k IH]; intros s; [reflexivity|].
  destruct s as [|c t]; [reflexivity|]. simpl. apply IH.
Qed.

Lemma drop_bytes_app (bs rest : string) :
  drop_bytes (String.length bs) (bs +:+ rest) = rest.
Proof. induction bs as [|c bs IH]; simpl; [reflexivity | exact IH]. Qed.

Lemma EncodeRune_1 (b0 : Z) :
  0 <= b0 < 0x80 -> EncodeRune b0 = String (ascii_of b0) EmptyString.
Proof.
  intros H. unfold EncodeRune, in_range, MaxRune. bool_cases; reflexivity.
Qed.

Lemma EncodeRune_2 (b0 b1 : Z) :
  0xC2 <= b0 <= 0xDF -> 0x80 <= b1 <= 0xBF ->
  EncodeRune ((b0 - 0xC0) * 64 + (b1 - 0x80))
  = String (ascii_of b0) (String (ascii_of b1) EmptyString).
Proof.
  intros H0 H1. unfold EncodeRune, in_range, MaxRune. bool_cases; cbn [andb];
    repeat f_equal; Z.div_mod_to_equations; lia.
Qed.

Lemma EncodeRune_3 (b0 b1 b2 : Z) :
  0xE0 <= b0 <= 0xEF -> accept_lo b0 <= b1 <= accept_hi b0 ->
  0x80 <= b2 <= 0xBF ->
  EncodeRune ((b0 - 0xE0) * 4096 + (b1 - 0x80) * 64 + (b2 - 0x80))
  = String (ascii_of b0)
      (String (ascii_of b1) (String (ascii_of b2) EmptyString)).
Proof.
  intros H0 H1 H2. unfold accept_lo, accept_hi in H1.
  unfold EncodeRune, in_range, MaxRune.
  destruct (Z.eqb_spec b0 0xE0), (Z.eqb_spec b0 0xED), (Z.eqb_spec b0 0xF0),
    (Z.eqb_spec b0 0xF4); try lia;
    bool_cases; cbn [andb orb];
    repeat f_equal; Z.div_mod_to_equations; lia.
Qed.

Lemma EncodeRune_4 (b0 b1 b2 b3 : Z) :
  0xF0 <= b0 <= 0xF4 -> accept_lo b0 <= b1 <= accept_hi b0 ->
  0x80 <= b2 <= 0xBF -> 0x80 <= b3 <= 0xBF ->
  EncodeRune ((b0 - 0xF0) * 262144 + (b1 - 0x80) * 4096
              + (b2 - 0x80) * 64 + (b3 - 0x80))
  = String (ascii_of b0)
      (String (ascii_of b1)
         (String (ascii_of b2) (String (ascii_of b3) EmptyString))).
Proof.
  intros H0 H1 H2 H3. unfold accept_lo, accept_hi in H1.
  unfold EncodeRune, in_range, MaxRune.
  destruct (Z.eqb_spec b0 0xE0), (Z.eqb_spec b0 0xED), (Z.eqb_spec b0 0xF0),
    (Z.eqb_spec b0 0xF4); try lia;
    bool_cases; cbn [andb orb];
    repeat f_equal; Z.div_mod_to_equations; lia.
Qed.

Lemma in_range_true (lo hi b : Z) : in_range lo hi b = true -> lo <= b <= hi.
Proof.
  unfold in_range. intros H. apply andb_true_iff in H. destruct H as [H1 H2].
  apply Z.leb_le in H1. apply Z.leb_le in H2. lia.
Qed.

Lemma DecodeRune_low (c : ascii) (t : string) :
  byte_of c < 0x80 -> DecodeRuneInString (String c t) = (byte_of c, 1%nat).
Proof.
  intros H. unfold DecodeRuneInString.
  destruct (Z.ltb_spec (byte_of c) 0x80); [reflexivity | lia].
Qed.

(** From a byte of [0x80] or more [range] reads either an invalid byte,
    alone, as U+FFFD, or a whole multi-byte sequence, which [WriteRune]
    writes back byte for byte. *)
Lemma DecodeRune_high (c : ascii) (t : string) :
  0x80 <= byte_of c ->
  exists (bs rest : string) (r : Z),
    t = bs +:+ rest
    /\ DecodeRuneInString (String c t) = (r, S (String.length bs))
    /\ 0x80 <= r
    /\ high_bytes bs
    /\ ((r = RuneError /\ bs = EmptyString)
        \/ (bs <> EmptyString /\ EncodeRune r = String c bs)).
Proof.
  intros Hc.
  assert (Herr : exists (bs rest : string) (r : Z),
             t = bs +:+ rest
             /\ (RuneError, 1%nat) = (r, S (String.length bs))
             /\ 0x80 <= r
             /\ high_bytes bs
             /\ ((r = RuneError /\ bs = EmptyString)
                 \/ (bs <> EmptyString /\ EncodeRune r = String c bs))).
  { exists EmptyString, t, RuneError. unfold RuneError. simpl.
    repeat split; try lia. left. split; reflexivity. }
  unfold DecodeRuneInString.
  destruct (Z.ltb_spec (byte_of c) 0x80) as [Hlt|_]; [lia|].
  destruct (in_range 0xC2 0xDF (byte_of c)) eqn:E2.
  { apply in_range_true in E2.
    destruct t as [|c1 t1]; [exact Herr|]. cbv zeta.
    destruct (in_range 0x80 0xBF (byte_of c1)) eqn:E21; [|exact Herr].
    apply in_range_true in E21.
    exists (String c1 EmptyString), t1, ((byte_of c - 0xC0) * 64 + (byte_of c1 - 0x80)).
    split; [reflexivity|]. split; [reflexivity|]. split; [lia|].
    split; [simpl; lia|]. right. split; [discriminate|].
    rewrite EncodeRune_2 by lia. now rewrite !ascii_of_byte_of. }
  destruct (in_range 0xE0 0xEF (byte_of c)) eqn:E3.
  { apply in_range_true in E3.
    destruct t as [|c1 [|c2 t2]]; [exact Herr | exact Herr |]. cbv zeta.
    destruct (in_range (accept_lo (byte_of c)) (accept_hi (byte_of c))
                (byte_of c1)) eqn:E31; [|exact Herr].
    destruct (in_range 0x80 0xBF (byte_of c2)) eqn:E32; [|exact Herr].
    apply in_range_true in E31. apply in_range_true in E32. cbn [andb].
    exists (String c1 (String c2 EmptyString)), t2,
      ((byte_of c - 0xE0) * 4096 + (byte_of c1 - 0x80) * 64
       + (byte_of c2 - 0x80)).
    assert (H1 : 0x80 <= byte_of c1 <= 0xBF).
    { unfold accept_lo, accept_hi in E31.
      destruct (Z.eqb_spec (byte_of c) 0xE0), (Z.eqb_spec (byte_of c) 0xED),
        (Z.eqb_spec (byte_of c) 0xF0), (Z.eqb_spec (byte_of c) 0xF4); lia. }
    assert (Hr : 0x800 <= (byte_of c - 0xE0) * 4096 + (byte_of c1 - 0x80) * 64
                          + (byte_of c2 - 0x80)).
    { unfold accept_lo in E31.
      destruct (Z.eqb_spec (byte_of c) 0xE0), (Z.eqb_spec (byte_of c) 0xF0);
        lia. }
    split; [reflexivity|]. split; [reflexivity|]. split; [lia|].
    split; [simpl; lia|]. right. split; [discriminate|].
    rewrite EncodeRune_3 by lia. now rewrite !ascii_of_byte_of. }
  destruct (in_range 0xF0 0xF4 (byte_of c)) eqn:E4; [|exact Herr].
  apply in_range_true in E4.
  destruct t as [|c1 [|c2 [|c3 t3]]]; [exact Herr | exact Herr | exact Herr |].
  cbv zeta.
  destruct (in_range (accept_lo (byte_of c)) (accept_hi (byte_of c))
              (byte_of c1)) eqn:E41; [|exact Herr].
  destruct (in_range 0x80 0xBF (byte_of c2)) eqn:E42; [|exact Herr].
  destruct (in_range 0x80 0xBF (byte_of c3)) eqn:E43; [|exact Herr].
  apply in_range_true in E41. apply in_range_true in E42.
  apply in_range_true in E43. cbn [andb].
  exists (String c1 (String c2 (String c3 EmptyString))), t3,
    ((byte_of c - 0xF0) * 262144 + (byte_of c1 - 0x80) * 4096
     + (byte_of c2 - 0x80) * 64 + (byte_of c3 - 0x80)).
  assert (H1 : 0x80 <= byte_of c1 <= 0xBF).
  { unfold accept_lo, accept_hi in E41.
    destruct (Z.eqb_spec (byte_of c) 0xE0), (Z.eqb_spec (byte_of c) 0xED),
      (Z.eqb_spec (byte_of c) 0xF0), (Z.eqb_spec (byte_of c) 0xF4); lia. }
  assert (Hr : 0x10000 <= (byte_of c - 0xF0) * 262144
                          + (byte_of c1 - 0x80) * 4096
                          + (byte_of c2 - 0x80) * 64 + (byte_of c3 - 0x80)).
  { unfold accept_lo in E41.
    destruct (Z.eqb_spec (byte_of c) 0xE0), (Z.eqb_spec (byte_of c) 0xF0);
      lia. }
  split; [reflexivity|]. split; [reflexivity|]. split; [lia|].
  split; [simpl; lia|]. right. split; [discriminate|].
  rewrite EncodeRune_4 by lia. now rewrite !ascii_of_byte_of.
Qed.

Lemma range_runes_cons (c : ascii) (t : string) :
  range_runes (String c t)
  = fst (DecodeRuneInString (String c t))
    :: range_runes (drop_bytes (snd (DecodeRuneInString (String c t)) - 1) t).
Proof.
  unfold range_runes at 1. cbn [range_from].
  destruct (DecodeRuneInString (String c t)) as [r w]. cbn [fst snd].
  now rewrite range_from_drop.
Qed.

Lemma ValidString_cons (c : ascii) (t : string) :
  ValidString (String c t)
  = if (fst (DecodeRuneInString (String c t)) =? RuneError)
       && (snd (DecodeRuneInString (String c t)) =? 1)%nat
    then false
    else ValidString
           (drop_bytes (snd (DecodeRuneInString (String c t)) - 1) t).
Proof.
  unfold ValidString at 1. cbn [valid_from].
  destruct (DecodeRuneInString (String c t)) as [r w]. cbn [fst snd].
  now rewrite valid_from_drop.
Qed.

Lemma range_runes_low (c : ascii) (t : string) :
  byte_of c < 0x80 -> range_runes (String c t) = byte_of c :: range_runes t.
Proof.
  intros H. rewrite range_runes_cons, DecodeRune_low by assumption.
  reflexivity.
Qed.

Lemma rewrite_bytes_high (bs rest : string) (n : Z) :
  high_bytes bs ->
  rewrite_bytes (bs +:+ rest) n = bs +:+ rewrite_bytes rest n.
Proof.
  induction bs as [|c bs IH]; intros H; [reflexivity|].
  destruct H as [Hc Hbs]. simpl.
  destruct (Z.eqb_spec (byte_of c) 63); [lia|]. now rewrite IH.
Qed.

(** ** [replacePlaceholders] *)

Lemma fold_replace_step (rs : list Z) (acc : string) (n : Z) :
  fst (fold_left replace_step rs (acc, n)) = acc +:+ rewrite_runes rs n.
Proof.
  revert acc n. induction rs as [|r rs IH]; intros acc n; simpl.
  - now rewrite str_app_nil_r.
  - destruct (r =? 63); rewrite IH.
    + rewrite str_app_nil_r, !str_app_assoc. reflexivity.
    + now rewrite str_app_assoc.
Qed.

Lemma replacePlaceholders_runes (d : DBType) (condition : string)
    (startIdx : Z) :
  d <> MariaDB ->
  replacePlaceholders d condition startIdx
  = rewrite_runes (range_runes condition) startIdx.
Proof.
  intros Hd. unfold replacePlaceholders.
  destruct (String.eqb_spec d MariaDB); [contradiction|].
  apply fold_replace_step.
Qed.

Lemma rewrite_valid (m : nat) :
  forall (s : string) (n : Z),
    (String.length s <= m)%nat -> ValidString s = true ->
    rewrite_runes (range_runes s) n = rewrite_bytes s n.
Proof.
  induction m as [|m IH]; intros s n Hlen Hv.
  - destruct s; [reflexivity | simpl in Hlen; lia].
  - destruct s as [|c t]; [reflexivity|]. simpl in Hlen.
    destruct (Z.lt_ge_cases (byte_of c) 0x80) as [Hlo|Hhi].
    + rewrite ValidString_cons, DecodeRune_low in Hv by assumption.
      cbn [fst snd] in Hv.
      replace (byte_of c =? RuneError) with false in Hv
        by (symmetry; apply Z.eqb_neq; unfold RuneError; lia).
      cbn [andb Nat.sub drop_bytes] in Hv.
      rewrite range_runes_low by assumption. cbn [rewrite_runes rewrite_bytes].
      destruct (byte_of c =? 63).
      * rewrite IH by (assumption || lia). reflexivity.
      * rewrite IH by (assumption || lia).
        pose proof (byte_of_bounds c).
        rewrite EncodeRune_1 by lia. now rewrite ascii_of_byte_of.
    + destruct (DecodeRune_high c t Hhi)
        as (bs & rest & r & Ht & Hd & Hr & Hbs & Hcase).
      rewrite ValidString_cons, Hd in Hv. cbn [fst snd] in Hv.
      rewrite range_runes_cons, Hd. cbn [fst snd]. subst t.
      replace (S (String.length bs) - 1)%nat with (String.length bs) in *
        by lia.
      rewrite drop_bytes_app in *.
      destruct Hcase as [[-> ->]|[Hne He]].
      * discriminate Hv.
      * destruct bs as [|c1 bs']; [congruence|].
        rewrite andb_false_r in Hv.
        cbn [rewrite_runes rewrite_bytes].
        destruct (Z.eqb_spec r 63); [lia|].
        destruct (Z.eqb_spec (byte_of c) 63); [lia|].
        rewrite He, IH.
        -- rewrite rewrite_bytes_high by assumption. reflexivity.
        -- rewrite str_app_length in Hlen. simpl in Hlen. lia.
        -- assumption.
Qed.

(** C4, as stated, fails on a condition that is not valid UTF-8: the
    [range] loop reads the byte [0xFF] as U+FFFD and [WriteRune] writes the
    three bytes of U+FFFD, so the byte is not passed through. *)
Lemma replacePlaceholders_counterexample :
  let condition := bytes [0xFF] +:+ "?" in
  ValidString condition = false
  /\ replacePlaceholders PostgreSQL condition 1
     = bytes [0xEF; 0xBF; 0xBD] +:+ "$1"
  /\ rewrite_bytes condition 1 = bytes [0xFF] +:+ "$1"
  /\ replacePlaceholders PostgreSQL condition 1 <> rewrite_bytes condition 1.
Proof.
  cbv zeta. split; [|split; [|split]]; vm_compute; try reflexivity.
  discriminate.
Qed.

(** C4, amended. [replacePlaceholders] returns the condition unchanged for
    MariaDB.  For PostgreSQL it rewrites the condition rune by rune: each
    [?] becomes [$N], [N] starting at the start index and going up by one
    per replacement, and every other rune is written out; when the
    condition is valid UTF-8 this copies every byte other than [?]
    unchanged, also inside quoted literals.  (A byte that is not part of
    valid UTF-8 is read as U+FFFD and written as such.) *)
Theorem replacePlaceholders_spec (condition : string) (startIdx : Z) :
  replacePlaceholders MariaDB condition startIdx = condition
  /\ replacePlaceholders PostgreSQL condition startIdx
     = rewrite_runes (range_runes condition) startIdx
  /\ (ValidString condition = true ->
      replacePlaceholders PostgreSQL condition startIdx
      = rewrite_bytes condition startIdx)
  /\ replacePlaceholders PostgreSQL "a = '?' AND b = ?" 3
     = "a = '$3' AND b = $4".
Proof.
  split; [reflexivity|]. split; [|split].
  - apply replacePlaceholders_runes. discriminate.
  - intros Hv. rewrite replacePlaceholders_runes by discriminate.
    now apply (rewrite_valid (String.length condition)).
  - vm_compute. reflexivity.
Qed.

Lemma replacePlaceholders_spec_witness :
  let condition := "n = ? AND " +:+ bytes [0xE2; 0x82; 0xAC] +:+ " < ?" in
  ValidString condition = true
  /\ replacePlaceholders PostgreSQL condition 7
     = "n = $7 AND " +:+ bytes [0xE2; 0x82; 0xAC] +:+ " < $8".
Proof.
  cbv zeta.
  assert (Hv : ValidString
                 ("n = ? AND " +:+ bytes [0xE2; 0x82; 0xAC] +:+ " < ?") = true)
    by (vm_compute; reflexivity).
  destruct (replacePlaceholders_spec
              ("n = ? AND " +:+ bytes [0xE2; 0x82; 0xAC] +:+ " < ?") 7)
    as (_ & _ & H & _).
  split; [exact Hv|]. rewrite (H Hv). vm_compute. reflexivity.
Defined.

(** ** Marked texts *)

Lemma render_app (style : Z -> string) (ps qs : list piece) :
  render style (ps ++ qs) = render style ps +:+ render style qs.
Proof.
  induction ps as [|[s|n] ps IH]; simpl; [reflexivity | |];
    now rewrite IH, str_app_assoc.
Qed.

Lemma marker_numbers_app (ps qs : list piece) :
  marker_numbers (ps ++ qs) = marker_numbers ps ++ marker_numbers qs.
Proof.
  induction ps as [|[s|n] ps IH]; simpl; [reflexivity | exact IH |].
  now rewrite IH.
Qed.

Lemma consecutive_length (start : Z) (count : nat) :
  length (consecutive start count) = count.
Proof.
  revert start. induction count as [|k IH]; intros start; simpl;
    [reflexivity | now rewrite IH].
Qed.

Lemma markers_consecutive (start : Z) (count : nat) :
  markers start count = map positional (consecutive start count).
Proof.
  unfold markers. revert start. induction count as [|k IH]; intros start;
    [reflexivity|].
  cbn [seq map consecutive]. rewrite <- seq_shift, map_map.
  f_equal. { unfold positional. now rewrite Z.add_0_r. }
  rewrite <- IH. apply map_ext. intros i. do 2 f_equal. lia.
Qed.

Lemma list_pieces_numbers (start : Z) (count : nat) :
  marker_numbers (list_pieces start count) = consecutive start count.
Proof.
  revert start. induction count as [|k IH]; intros start; [reflexivity|].
  cbn [list_pieces consecutive marker_numbers]. f_equal.
  destruct k as [|k]; [reflexivity|]. cbn [marker_numbers]. apply IH.
Qed.

Lemma list_pieces_render (style : Z -> string) (start : Z) (count : nat) :
  render style (list_pieces start count)
  = Join (map style (consecutive start count)) ", ".
Proof.
  revert start. induction count as [|k IH]; intros start; [reflexivity|].
  cbn [list_pieces consecutive map render].
  destruct k as [|k].
  - simpl. now rewrite str_app_nil_r.
  - cbn [render]. rewrite IH. reflexivity.
Qed.

Lemma map_fixed_token (l : list Z) :
  map fixed_token l = repeat "?" (length l).
Proof. induction l as [|x l IH]; simpl; [reflexivity | now rewrite IH]. Qed.

Lemma byte_pieces_render (s : string) (n : Z) :
  render fixed_token (byte_pieces s n) = s.
Proof.
  revert n. induction s as [|c t IH]; intros n; simpl; [reflexivity|].
  destruct (Z.eqb_spec (byte_of c) 63) as [E|_]; simpl; rewrite IH;
    [|reflexivity].
  f_equal. rewrite <- (ascii_of_byte_of c), E. reflexivity.
Qed.

Lemma byte_pieces_numbers (s : string) (n : Z) :
  marker_numbers (byte_pieces s n) = consecutive n (count_placeholders s).
Proof.
  revert n. induction s as [|c t IH]; intros n; simpl; [reflexivity|].
  destruct (byte_of c =? 63); simpl; now rewrite IH.
Qed.

Lemma rune_pieces_numbers (rs : list Z) (n : Z) :
  marker_numbers (rune_pieces rs n) = consecutive n (count_question rs).
Proof.
  revert n. induction rs as [|r rs IH]; intros n; simpl; [reflexivity|].
  destruct (r =? 63); simpl; now rewrite IH.
Qed.

Lemma rune_pieces_render (rs : list Z) (n : Z) :
  int_min <= n -> n + Z.of_nat (count_question rs) <= int_max ->
  rewrite_runes rs n = render positional (rune_pieces rs n).
Proof.
  revert n. induction rs as [|r rs IH]; intros n Hlo Hhi; simpl;
    [reflexivity|].
  simpl in Hhi. destruct (r =? 63); simpl.
  - rewrite int_add_small by (unfold int_min, int_max in *; lia).
    rewrite IH by (unfold int_min, int_max in *; lia). reflexivity.
  - now rewrite IH.
Qed.

Lemma count_placeholders_high (bs rest : string) :
  high_bytes bs ->
  count_placeholders (bs +:+ rest) = count_placeholders rest.
Proof.
  induction bs as [|c bs IH]; intros H; [reflexivity|].
  destruct H as [Hc Hbs]. simpl.
  destruct (Z.eqb_spec (byte_of c) 63); [lia | now apply IH].
Qed.

(** The [?] runes that [range] reads are the [?] bytes of the string,
    valid UTF-8 or not. *)
Lemma count_question_runes (m : nat) :
  forall s : string,
    (String.length s <= m)%nat ->
    count_question (range_runes s) = count_placeholders s.
Proof.
  induction m as [|m IH]; intros s Hlen.
  - destruct s; [reflexivity | simpl in Hlen; lia].
  - destruct s as [|c t]; [reflexivity|]. simpl in Hlen.
    destruct (Z.lt_ge_cases (byte_of c) 0x80) as [Hlo|Hhi].
    + rewrite range_runes_low by assumption. simpl.
      rewrite IH by lia. reflexivity.
    + destruct (DecodeRune_high c t Hhi)
        as (bs & rest & r & Ht & Hd & Hr & Hbs & _).
      rewrite range_runes_cons, Hd. cbn [fst snd]. subst t.
      replace (S (String.length bs) - 1)%nat with (String.length bs) by lia.
      rewrite drop_bytes_app. simpl.
      destruct (Z.eqb_spec r 63); [lia|].
      destruct (Z.eqb_spec (byte_of c) 63); [lia|].
      rewrite count_placeholders_high by assumption.
      apply IH. rewrite str_app_length in Hlen. lia.
Qed.

(** ** Sequences of calls *)

Lemma exec_args (qb : QueryBuilder) (c : call) :
  args (exec qb c) = args qb ++ bound_values qb c.
Proof. destruct c; try reflexivity. simpl. now rewrite Build_eq. Qed.

Lemma exec_fixed (qb : QueryBuilder) (c : call) :
  dbType (exec qb c) = dbType qb
  /\ limit (exec qb c) = limit qb
  /\ offset (exec qb c) = offset qb.
Proof.
  destruct c; try (repeat split; reflexivity).
  simpl. rewrite Build_eq. repeat split; reflexivity.
Qed.

Lemma run_fixed (qb : QueryBuilder) (calls : list call) :
  dbType (run qb calls) = dbType qb
  /\ limit (run qb calls) = limit qb
  /\ offset (run qb calls) = offset qb.
Proof.
  revert qb. induction calls as [|c cs IH]; intros qb; [repeat split|].
  simpl. destruct (IH (exec qb c)) as (H1 & H2 & H3).
  destruct (exec_fixed qb c) as (E1 & E2 & E3).
  repeat split; congruence.
Qed.

Lemma paging_args_fixed (qb qb' : QueryBuilder) :
  limit qb' = limit qb -> offset qb' = offset qb ->
  paging_args qb' = paging_args qb.
Proof. intros H1 H2. unfold paging_args. now rewrite H1, H2. Qed.

Lemma bound_values_fixed (qb qb' : QueryBuilder) (c : call) :
  limit qb' = limit qb -> offset qb' = offset qb ->
  bound_values qb' c = bound_values qb c.
Proof.
  intros H1 H2. destruct c; try reflexivity. now apply paging_args_fixed.
Qed.

Lemma embedded_fixed (qb qb' : QueryBuilder) (c : call) :
  limit qb' = limit qb -> offset qb' = offset qb ->
  embedded qb' c = embedded qb c.
Proof.
  intros H1 H2. destruct c; try reflexivity. simpl.
  now rewrite (paging_args_fixed qb qb').
Qed.

Lemma run_args (qb : QueryBuilder) (calls : list call) :
  args (run qb calls) = args qb ++ flat_map (bound_values qb) calls.
Proof.
  revert qb. induction calls as [|c cs IH]; intros qb; simpl.
  - now rewrite app_nil_r.
  - rewrite IH, exec_args, <- app_assoc. do 2 f_equal.
    destruct (exec_fixed qb c) as (_ & E2 & E3).
    apply flat_map_ext. intros c'. now apply bound_values_fixed.
Qed.

Lemma balanced_length (qb : QueryBuilder) (c : call) :
  balanced c -> length (bound_values qb c) = embedded qb c.
Proof. destruct c; simpl; auto. Qed.

Lemma balanced_total (qb : QueryBuilder) (calls : list call) :
  Forall balanced calls ->
  length (flat_map (bound_values qb) calls) = total_embedded qb calls.
Proof.
  unfold total_embedded. induction 1 as [|c cs Hc Hcs IH]; [reflexivity|].
  simpl. rewrite length_app, IH, (balanced_length qb c Hc). reflexivity.
Qed.

Lemma call_pieces_numbers (qb : QueryBuilder) (start : Z) (c : call) :
  marker_numbers (call_pieces qb start c) = consecutive start (embedded qb c).
Proof.
  assert (Hcond : forall condition,
             marker_numbers
               (if String.eqb (dbType qb) MariaDB
                then byte_pieces condition start
                else rune_pieces (range_runes condition) start)
             = consecutive start (count_placeholders condition)).
  { intros condition. destruct (String.eqb (dbType qb) MariaDB).
    - apply byte_pieces_numbers.
    - rewrite rune_pieces_numbers.
      now rewrite (count_question_runes (String.length condition)). }
  destruct c as [condition a|column values|column s e|condition a|];
    cbn [call_pieces embedded marker_numbers].
  - apply Hcond.
  - rewrite marker_numbers_app, list_pieces_numbers. simpl.
    now rewrite app_nil_r.
  - rewrite marker_numbers_app, list_pieces_numbers. reflexivity.
  - apply Hcond.
  - unfold paging_args.
    destruct (0 <? limit qb), (0 <? offset qb); reflexivity.
Qed.

Lemma condition_pieces (d : DBType) (condition : string) (n : Z) :
  int_min <= n -> n + Z.of_nat (count_placeholders condition) <= int_max ->
  replacePlaceholders d condition n
  = render (if String.eqb d MariaDB then fixed_token else positional)
      (if String.eqb d MariaDB then byte_pieces condition n
       else rune_pieces (range_runes condition) n).
Proof.
  intros Hlo Hhi. destruct (String.eqb_spec d MariaDB) as [->|Hd].
  - now rewrite byte_pieces_render.
  - rewrite replacePlaceholders_runes by assumption.
    apply rune_pieces_render; [assumption|].
    now rewrite (count_question_runes (String.length condition)).
Qed.

Lemma placeholder_list_pieces (d : DBType) (n : Z) (count : nat) :
  int_min <= n -> n + Z.of_nat count <= int_max + 1 ->
  generatePlaceholders d n count
  = render (if String.eqb d PostgreSQL then positional else fixed_token)
      (list_pieces n count).
Proof.
  intros Hlo Hhi. rewrite list_pieces_render.
  destruct (String.eqb_spec d PostgreSQL) as [->|Hd].
  - rewrite generatePlaceholders_markers by assumption.
    now rewrite markers_consecutive.
  - rewrite generatePlaceholders_other by assumption.
    now rewrite map_fixed_token, consecutive_length.
Qed.

Lemma last_snoc {A : Type} (l : list A) (x d : A) : List.last (l ++ [x]) d = x.
Proof.
  induction l as [|y l IH]; [reflexivity|].
  simpl. destruct (l ++ [x]) eqn:E; [now destruct l | exact IH].
Qed.

Lemma produced_pieces (qb : QueryBuilder) (c : call) :
  len (args qb) + Z.of_nat (embedded qb c) < int_max ->
  produced qb c
  = render (call_style (dbType qb) c)
      (call_pieces qb (len (args qb) + 1) c).
Proof.
  intros Hb.
  assert (Hlen : 0 <= len (args qb)) by (unfold len; lia).
  assert (Hs : int_add (len (args qb)) 1 = len (args qb) + 1)
    by (apply int_add_small; unfold int_min, int_max in *; lia).
  destruct c as [condition a|column values|column s e|condition a|];
    cbn [produced exec call_style call_pieces embedded] in *.
  - unfold Where. cbn [conditions set_args set_conditions].
    rewrite last_snoc, Hs.
    apply condition_pieces; unfold int_min, int_max in *; lia.
  - rewrite WhereIn_eq. cbn [conditions set_args set_conditions].
    rewrite last_snoc, Hs. cbn [render]. rewrite render_app. cbn [render].
    rewrite placeholder_list_pieces by (unfold int_min, int_max in *; lia).
    now rewrite !str_app_assoc, str_app_nil_r.
  - rewrite WhereBetween_eq. cbn [conditions set_args set_conditions].
    rewrite last_snoc, Hs.
    rewrite placeholder_list_pieces
      by (unfold int_min, int_max in *; lia).
    cbn [render list_pieces app].
    now rewrite !str_app_assoc, str_app_nil_r.
  - unfold Having. cbn [having set_args set_having].
    rewrite last_snoc, Hs.
    apply condition_pieces; unfold int_min, int_max in *; lia.
  - rewrite Build_text, drop_bytes_app.
    unfold limit_clause, offset_clause, paging_args in *. rewrite Hs.
    destruct (0 <? limit qb), (0 <? offset qb); cbn [render app];
      cbn [length app] in Hb; unfold positional;
      rewrite ?int_add_small by (unfold int_min, int_max in *; lia);
      rewrite ?str_app_nil_r, ?str_app_assoc; reflexivity.
Qed.

Lemma call_pieces_fixed (qb qb' : QueryBuilder) (start : Z) (c : call) :
  dbType qb' = dbType qb -> limit qb' = limit qb -> offset qb' = offset qb ->
  call_pieces qb' start c = call_pieces qb start c.
Proof.
  intros H1 H2 H3. destruct c; cbn [call_pieces]; now rewrite ?H1, ?H2, ?H3.
Qed.

Lemma exec_produced (qb : QueryBuilder) (c : call) :
  match c with
  | CallHaving _ _ =>
    having (exec qb c) = having qb ++ [produced qb c]
    /\ conditions (exec qb c) = conditions qb
  | CallBuild =>
    fst (fst (Build qb)) = statement_head qb +:+ produced qb c
    /\ conditions (exec qb c) = conditions qb
    /\ having (exec qb c) = having qb
  | _ =>
    conditions (exec qb c) = conditions qb ++ [produced qb c]
    /\ having (exec qb c) = having qb
  end.
Proof.
  destruct c as [condition a|column values|column s e|condition a|];
    cbn [produced exec].
  - unfold Where. cbn [conditions having set_args set_conditions].
    now rewrite last_snoc.
  - unfold WhereIn. cbn [conditions having set_args set_conditions].
    now rewrite last_snoc.
  - unfold WhereBetween. cbn [conditions having set_args set_conditions].
    now rewrite last_snoc.
  - unfold Having. cbn [conditions having set_args set_having].
    now rewrite last_snoc.
  - rewrite Build_text, drop_bytes_app, Build_eq. repeat split; reflexivity.
Qed.

Lemma consecutive_app (start : Z) (n m : nat) :
  consecutive start (n + m)
  = consecutive start n ++ consecutive (start + Z.of_nat n) m.
Proof.
  revert start. induction n as [|n IH]; intros start.
  - simpl. now rewrite Z.add_0_r.
  - cbn [Nat.add consecutive app]. rewrite IH. do 3 f_equal. lia.
Qed.

Lemma run_pieces_numbers (qb : QueryBuilder) (start : Z) (calls : list call) :
  marker_numbers (concat (run_pieces qb start calls))
  = consecutive start (total_embedded qb calls).
Proof.
  unfold total_embedded. revert start.
  induction calls as [|c cs IH]; intros start; [reflexivity|].
  change (list_sum (map (embedded qb) (c :: cs)))
    with (embedded qb c + list_sum (map (embedded qb) cs))%nat.
  cbn [run_pieces concat].
  now rewrite marker_numbers_app, call_pieces_numbers, IH, consecutive_app.
Qed.

Lemma run_pieces_fixed (qb qb' : QueryBuilder) (start : Z)
    (calls : list call) :
  dbType qb' = dbType qb -> limit qb' = limit qb -> offset qb' = offset qb ->
  run_pieces qb' start calls = run_pieces qb start calls.
Proof.
  intros H1 H2 H3. revert start.
  induction calls as [|c cs IH]; intros start; [reflexivity|].
  cbn [run_pieces].
  now rewrite IH, (call_pieces_fixed qb qb'), (embedded_fixed qb qb').
Qed.

Lemma total_embedded_fixed (qb qb' : QueryBuilder) (calls : list call) :
  limit qb' = limit qb -> offset qb' = offset qb ->
  total_embedded qb' calls = total_embedded qb calls.
Proof.
  intros H1 H2. unfold total_embedded. f_equal. apply map_ext.
  intros c. now apply embedded_fixed.
Qed.

Lemma run_texts_pieces (calls : list call) :
  forall qb : QueryBuilder,
    Forall balanced calls ->
    len (args qb) + Z.of_nat (total_embedded qb calls) < int_max ->
    run_texts qb calls
    = render_all (dbType qb) calls
        (run_pieces qb (len (args qb) + 1) calls).
Proof.
  induction calls as [|c cs IH]; intros qb Hbal Hb; [reflexivity|].
  inversion Hbal as [|c' cs' Hc Hcs]; subst.
  unfold total_embedded in Hb.
  change (list_sum (map (embedded qb) (c :: cs)))
    with (embedded qb c + total_embedded qb cs)%nat in Hb.
  destruct (exec_fixed qb c) as (E1 & E2 & E3).
  assert (Hlen : len (args (exec qb c))
                 = len (args qb) + Z.of_nat (embedded qb c)).
  { rewrite exec_args. unfold len.
    rewrite length_app, (balanced_length qb c Hc). lia. }
  cbn [run_texts run_pieces render_all]. f_equal.
  - apply produced_pieces. lia.
  - rewrite IH; [|assumption|].
    + rewrite E1, Hlen. f_equal.
      rewrite (run_pieces_fixed qb) by assumption. f_equal. lia.
    + rewrite Hlen, (total_embedded_fixed qb) by assumption. lia.
Qed.

(** C1, as stated, fails: [Where] does not compare the number of [?] with
    the number of arguments.  After a [Where] without arguments the
    condition holds a placeholder and the argument list is empty, and the
    next [Where] numbers its placeholder [$1] again. *)
Lemma placeholder_invariant_counterexample :
  let calls := [CallWhere "a = ?" []; CallWhere "b = ?" [AInt 5]] in
  let qb := run (NewQueryBuilder PostgreSQL "t" []) calls in
  conditions qb = ["a = $1"; "b = $1"]
  /\ args qb = [AInt 5]
  /\ total_embedded (NewQueryBuilder PostgreSQL "t" []) calls = 2%nat
  /\ len (args qb)
     <> Z.of_nat (total_embedded (NewQueryBuilder PostgreSQL "t" []) calls).
Proof.
  cbv zeta. split; [|split; [|split]]; vm_compute; try reflexivity.
  discriminate.
Qed.

(** C1, amended. Let every [Where] and [Having] call made so far have
    passed as many arguments as its condition has [?].  Then the argument
    list holds the values of the calls in call order, its length is the
    number of placeholder tokens embedded so far (in the fragments and in
    the LIMIT and OFFSET text of earlier [Build] calls), and the next call,
    [Where], [WhereIn], [WhereBetween], [Having] or [Build], numbers its
    placeholders consecutively from [len(args)+1] and appends its values
    after the arguments already there; so the markers of the texts
    produced so far are numbered consecutively in call order, from 1 on a
    fresh builder, and the n-th marker stands for the n-th argument. *)
Theorem placeholder_numbering (qb0 : QueryBuilder) (pre : list call)
    (c : call) :
  Forall balanced pre ->
  len (args qb0) + Z.of_nat (total_embedded qb0 pre)
  + Z.of_nat (embedded qb0 c) < int_max ->
  let qb := run qb0 pre in
  let start := len (args qb) + 1 in
  args qb = args qb0 ++ flat_map (bound_values qb0) pre
  /\ len (args qb) = len (args qb0) + Z.of_nat (total_embedded qb0 pre)
  /\ match c with
     | CallHaving _ _ =>
       having (exec qb c) = having qb ++ [produced qb c]
       /\ conditions (exec qb c) = conditions qb
     | CallBuild =>
       fst (fst (Build qb)) = statement_head qb +:+ produced qb c
       /\ conditions (exec qb c) = conditions qb
       /\ having (exec qb c) = having qb
     | _ =>
       conditions (exec qb c) = conditions qb ++ [produced qb c]
       /\ having (exec qb c) = having qb
     end
  /\ produced qb c
     = render (call_style (dbType qb0) c) (call_pieces qb0 start c)
  /\ marker_numbers (call_pieces qb0 start c)
     = consecutive start (embedded qb0 c)
  /\ args (exec qb c) = args qb ++ bound_values qb0 c
  /\ run_texts qb0 pre
     = render_all (dbType qb0) pre (run_pieces qb0 (len (args qb0) + 1) pre)
  /\ marker_numbers (concat (run_pieces qb0 (len (args qb0) + 1) pre))
     = consecutive (len (args qb0) + 1) (total_embedded qb0 pre).
Proof.
  intros Hbal Hb. cbv zeta.
  destruct (run_fixed qb0 pre) as (Hd & Hl & Ho).
  assert (Hargs : args (run qb0 pre)
                  = args qb0 ++ flat_map (bound_values qb0) pre)
    by apply run_args.
  assert (Hlen : len (args (run qb0 pre))
                 = len (args qb0) + Z.of_nat (total_embedded qb0 pre)).
  { rewrite Hargs. unfold len. rewrite length_app, balanced_total by assumption.
    lia. }
  split; [exact Hargs|]. split; [exact Hlen|].
  split; [apply exec_produced|]. split; [|split; [|split; [|split]]].
  - rewrite produced_pieces.
    + rewrite Hd. f_equal. now apply call_pieces_fixed.
    + rewrite Hlen, (embedded_fixed qb0) by assumption. lia.
  - apply call_pieces_numbers.
  - rewrite exec_args. f_equal. now apply bound_values_fixed.
  - apply run_texts_pieces; [assumption | lia].
  - apply run_pieces_numbers.
Qed.

Lemma placeholder_numbering_witness :
  let qb0 := Limit (NewQueryBuilder PostgreSQL "t" []) 10 in
  let pre := [CallWhere "a = ? AND b = ?" [AInt 1; AInt 2];
              CallWhereIn "s" [AInt 3; AInt 4; AInt 5];
              CallHaving "c > ?" [AInt 6]] in
  Forall balanced pre
  /\ len (args qb0) + Z.of_nat (total_embedded qb0 pre)
     + Z.of_nat (embedded qb0 CallBuild) < int_max
  /\ len (args (run qb0 pre)) = 6
  /\ produced (run qb0 pre) CallBuild = " LIMIT $7"
  /\ args (exec (run qb0 pre) CallBuild)
     = [AInt 1; AInt 2; AInt 3; AInt 4; AInt 5; AInt 6; AInt 10].
Proof.
  cbv zeta.
  assert (Hbal : Forall balanced
                   [CallWhere "a = ? AND b = ?" [AInt 1; AInt 2];
                    CallWhereIn "s" [AInt 3; AInt 4; AInt 5];
                    CallHaving "c > ?" [AInt 6]])
    by (repeat constructor).
  assert (Hb : len (args (Limit (NewQueryBuilder PostgreSQL "t" []) 10))
               + Z.of_nat (total_embedded
                             (Limit (NewQueryBuilder PostgreSQL "t" []) 10)
                             [CallWhere "a = ? AND b = ?" [AInt 1; AInt 2];
                              CallWhereIn "s" [AInt 3; AInt 4; AInt 5];
                              CallHaving "c > ?" [AInt 6]])
               + Z.of_nat (embedded
                             (Limit (NewQueryBuilder PostgreSQL "t" []) 10)
                             CallBuild) < int_max)
    by (vm_compute; reflexivity).
  destruct (placeholder_numbering _ _ CallBuild Hbal Hb)
    as (_ & H2 & _ & H4 & _ & H6 & _).
  split; [exact Hbal|]. split; [exact Hb|]. split; [|split].
  - rewrite H2. vm_compute. reflexivity.
  - rewrite H4. vm_compute. reflexivity.
  - rewrite H6. vm_compute. reflexivity.
Defined.

(** * Further properties of the builder *)

(** ** [escapeIdentifier]: one name, one identifier *)

Lemma escapeIdentifier_quoted (d : DBType) (name : string) :
  name <> "*" ->
  escapeIdentifier d name
  = String (quote_of d) EmptyString +:+ doubled (quote_of d) name
    +:+ String (quote_of d) EmptyString.
Proof.
  intros Hn. unfold quote_of.
  destruct (String.eqb_spec d PostgreSQL) as [->|Hd].
  - now apply escapeIdentifier_postgres.
  - now apply escapeIdentifier_backtick.
Qed.

Lemma escapeIdentifier_read (d : DBType) (name : string) :
  name <> "*" ->
  read_quoted (quote_of d) (escapeIdentifier d name) = Some (name, EmptyString).
Proof.
  intros Hn. rewrite escapeIdentifier_quoted by assumption.
  apply read_quoted_doubled.
Qed.

Lemma escapeIdentifier_star (d : DBType) (name : string) :
  escapeIdentifier d name = "*" -> name = "*".
Proof.
  intros H. destruct (String.eqb_spec name "*") as [E|Hn]; [exact E|].
  rewrite escapeIdentifier_quoted in H by assumption. exfalso.
  unfold quote_of in H. destruct (String.eqb d PostgreSQL); discriminate H.
Qed.

(** X1. For one dialect value two different names never get the same
    escaped identifier, and only the wildcard is returned as [*]. *)
Theorem escapeIdentifier_injective (d : DBType) (a b : string) :
  (escapeIdentifier d a = escapeIdentifier d b -> a = b)
  /\ (escapeIdentifier d a = "*" -> a = "*").
Proof.
  split; [|apply escapeIdentifier_star].
  intros H. destruct (String.eqb_spec a "*") as [->|Ha].
  - symmetry. apply (escapeIdentifier_star d). now rewrite <- H.
  - destruct (String.eqb_spec b "*") as [->|Hb].
    + apply (escapeIdentifier_star d). now rewrite H.
    + pose proof (escapeIdentifier_read d a Ha) as Ra.
      pose proof (escapeIdentifier_read d b Hb) as Rb.
      rewrite H in Ra. congruence.
Qed.

Lemma escapeIdentifier_injective_witness :
  escapeIdentifier MariaDB "*" = escapeIdentifier MariaDB "*"
  /\ escapeIdentifier MariaDB "*" = "*"
  /\ escapeIdentifier MariaDB "a`b" <> escapeIdentifier MariaDB "a``b".
Proof.
  destruct (escapeIdentifier_injective MariaDB "*" "*") as [H1 H2].
  pose proof (H1 eq_refl) as E1. pose proof (H2 eq_refl) as E2.
  split; [reflexivity|]. split; [reflexivity|].
  intros H.
  apply (proj1 (escapeIdentifier_injective MariaDB "a`b" "a``b")) in H.
  discriminate H.
Defined.

Lemma doubled_length (q : ascii) (name : string) :
  String.length (doubled q name)
  = (String.length name + count_byte q name)%nat.
Proof.
  induction name as [|c t IH]; [reflexivity|]. simpl.
  destruct (Ascii.eqb q c); simpl; rewrite IH; lia.
Qed.

Lemma doubled_no_quote (q : ascii) (name : string) :
  count_byte q name = 0%nat -> doubled q name = name.
Proof.
  induction name as [|c t IH]; [reflexivity|]. simpl.
  destruct (Ascii.eqb q c); [discriminate|]. intros H. now rewrite IH.
Qed.

(** X2. The escaped form of a name other than [*] is two bytes longer
    than the name plus one byte for each quote character in it; a name
    without the dialect's quote character is only wrapped in quotes. *)
Theorem escapeIdentifier_length (d : DBType) (name : string) :
  name <> "*" ->
  String.length (escapeIdentifier d name)
  = (String.length name + count_byte (quote_of d) name + 2)%nat
  /\ (count_byte (quote_of d) name = 0%nat ->
      escapeIdentifier d name
      = String (quote_of d) EmptyString +:+ name
        +:+ String (quote_of d) EmptyString).
Proof.
  intros Hn. rewrite escapeIdentifier_quoted by assumption. split.
  - rewrite !str_app_length, doubled_length. simpl. lia.
  - intros H0. now rewrite doubled_no_quote.
Qed.

Lemma escapeIdentifier_length_witness :
  "user`s" <> "*"
  /\ String.length (escapeIdentifier MariaDB "user`s") = 9%nat
  /\ escapeIdentifier PostgreSQL "user`s" = dquote +:+ "user`s" +:+ dquote.
Proof.
  assert (Hn : "user`s" <> "*") by discriminate.
  split; [exact Hn|]. split.
  - rewrite (proj1 (escapeIdentifier_length MariaDB "user`s" Hn)). reflexivity.
  - apply (proj2 (escapeIdentifier_length PostgreSQL "user`s" Hn)). reflexivity.
Defined.

(** ** [NewQueryBuilder], [Aggregate] and [GroupBy] *)

Lemma set_args_same (qb : QueryBuilder) : set_args qb (args qb) = qb.
Proof. now destruct qb. Qed.

Lemma set_groupBy_same (qb : QueryBuilder) : set_groupBy qb (groupBy qb) = qb.
Proof. now destruct qb. Qed.

Lemma Build_plain (qb : QueryBuilder) :
  limit qb <= 0 -> offset qb <= 0 ->
  Build qb = (statement_head qb, args qb, qb).
Proof.
  intros Hl Ho. rewrite Build_eq.
  unfold limit_clause, offset_clause, paging_args, statement_head.
  destruct (Z.ltb_spec 0 (limit qb)); [lia|].
  destruct (Z.ltb_spec 0 (offset qb)); [lia|].
  cbn [app]. rewrite app_nil_r, set_args_same, !str_app_nil_r.
  reflexivity.
Qed.

Lemma len_pos_false {A : Type} (x : A) (l : list A) : (len (x :: l) =? 0) = false.
Proof. apply Z.eqb_neq. unfold len. simpl length. lia. Qed.

(** X3. A builder fresh from [NewQueryBuilder] builds
    [SELECT columns FROM table] with no argument, the table and every
    column escaped and the select list being [*] when no column is given;
    [Build] leaves such a builder as it is. *)
Theorem NewQueryBuilder_Build (d : DBType) (t : string) (cols : list string) :
  Build (NewQueryBuilder d t cols)
  = ("SELECT "
     +:+ Join (match cols with
               | [] => ["*"]
               | _ => map (escapeIdentifier d) cols
               end) ", "
     +:+ " FROM " +:+ escapeIdentifier d t,
     [],
     NewQueryBuilder d t cols)
  /\ length (columns (NewQueryBuilder d t cols)) = Nat.max 1 (length cols).
Proof.
  split.
  - rewrite Build_plain by (simpl; lia). f_equal. f_equal.
    unfold statement_head, select_clause, from_clause, join_clause,
      where_clause, order_clause, NewQueryBuilder.
    cbn [columns table joins conditions orderBy String.eqb].
    rewrite !str_app_nil_r, str_app_assoc.
    destruct cols; reflexivity.
  - unfold NewQueryBuilder. cbv zeta. cbn [columns].
    destruct cols as [|c cs]; [reflexivity|].
    cbn [map]. rewrite len_pos_false. cbn [length]. rewrite length_map. lia.
Qed.

Lemma Sprintf_call (f x : string) :
  Sprintf "%s(%s)" [FString f; FString x] = f +:+ "(" +:+ x +:+ ")".
Proof. reflexivity. Qed.

(** X4. [Aggregate] appends [function(column)] to the select list, the
    column escaped and the function name as given; on a builder created
    without columns the default [*] stays first in the list, so the
    statement selects [*] as well as the aggregate. *)
Theorem Aggregate_select (qb : QueryBuilder) (function column : string) :
  Aggregate qb function column
  = set_columns qb
      (columns qb
       ++ [function +:+ "(" +:+ escapeIdentifier (dbType qb) column +:+ ")"])
  /\ (forall d t,
        fst (Build (Aggregate (NewQueryBuilder d t []) function column))
        = ("SELECT *, " +:+ function +:+ "("
           +:+ escapeIdentifier d column +:+ ")"
           +:+ " FROM " +:+ escapeIdentifier d t,
           [])).
Proof.
  split.
  - unfold Aggregate. now rewrite Sprintf_call.
  - intros d t. rewrite Build_plain by (simpl; lia). cbn [fst].
    unfold Aggregate. rewrite Sprintf_call. f_equal.
    unfold statement_head, select_clause, from_clause, join_clause,
      where_clause, order_clause, NewQueryBuilder.
    cbv zeta.
    cbn [columns table joins conditions orderBy String.eqb set_columns
         dbType map].
    change (len (@nil string) =? 0) with true. cbv iota.
    cbn [app]. unfold Join. cbn [String.concat].
    rewrite !str_app_nil_r, !str_app_assoc. reflexivity.
Qed.

Lemma GroupBy_eq (cols : list string) :
  forall qb : QueryBuilder,
    GroupBy qb cols
    = set_groupBy qb (groupBy qb ++ map (escapeIdentifier (dbType qb)) cols).
Proof.
  unfold GroupBy. induction cols as [|c cs IH]; intros qb.
  - cbn [fold_left map]. now rewrite app_nil_r, set_groupBy_same.
  - cbn [fold_left map]. rewrite IH. cbn [groupBy dbType set_groupBy].
    now rewrite <- app_assoc.
Qed.

(** X5. [GroupBy] appends the escaped columns in order to the GROUP BY
    list and changes nothing else; two calls are one call with the
    columns of both, a call without columns does nothing, and the
    statement and arguments [Build] returns are the same with or without
    the call. *)
Theorem GroupBy_spec (qb : QueryBuilder) (cols more : list string) :
  GroupBy qb cols
  = set_groupBy qb (groupBy qb ++ map (escapeIdentifier (dbType qb)) cols)
  /\ GroupBy (GroupBy qb cols) more = GroupBy qb (cols ++ more)
  /\ GroupBy qb [] = qb
  /\ fst (Build (GroupBy qb cols)) = fst (Build qb).
Proof.
  split; [apply GroupBy_eq|]. split; [|split].
  - rewrite !GroupBy_eq. cbn [groupBy dbType set_groupBy].
    now rewrite map_app, app_assoc.
  - reflexivity.
  - rewrite GroupBy_eq, !Build_eq. reflexivity.
Qed.

(** ** Calls that set a clause and calls that allocate placeholders *)

(** X6. A call that sets a clause ([Distinct], [Aggregate], the joins,
    [GroupBy], [OrderBy], [Limit], [Offset]) and a call that allocates
    placeholders ([Where], [WhereIn], [WhereBetween], [Having]) can be
    made in either order with the same builder as result: a join
    condition or a sort column never shifts the numbering, and the clause
    call leaves conditions, having fragments and arguments alone. *)
Theorem clause_calls_commute (up : Z -> Z) (qb : QueryBuilder)
    (k : clause_call) (c : call) :
  c <> CallBuild ->
  exec (apply_clause up qb k) c = apply_clause up (exec qb c) k
  /\ args (apply_clause up qb k) = args qb
  /\ conditions (apply_clause up qb k) = conditions qb
  /\ having (apply_clause up qb k) = having qb.
Proof.
  intros Hc.
  assert (Hg : forall cols q,
             GroupBy q cols
             = set_groupBy q
                 (groupBy q ++ map (escapeIdentifier (dbType q)) cols))
    by (intros cols q; apply GroupBy_eq).
  split; [|split; [|split]].
  - destruct c; [| | | |congruence];
      destruct k; cbn [exec apply_clause]; rewrite ?Hg; reflexivity.
  - destruct k; cbn [apply_clause]; rewrite ?Hg; reflexivity.
  - destruct k; cbn [apply_clause]; rewrite ?Hg; reflexivity.
  - destruct k; cbn [apply_clause]; rewrite ?Hg; reflexivity.
Qed.

Lemma clause_calls_commute_witness :
  CallWhere "a = ?" [AInt 1] <> CallBuild
  /\ Where (LeftJoin (NewQueryBuilder PostgreSQL "t" []) "u" "u.k = ?")
       "a = ?" [AInt 1]
     = LeftJoin (Where (NewQueryBuilder PostgreSQL "t" []) "a = ?" [AInt 1])
         "u" "u.k = ?"
  /\ conditions
       (Where (LeftJoin (NewQueryBuilder PostgreSQL "t" []) "u" "u.k = ?")
          "a = ?" [AInt 1])
     = ["a = $1"].
Proof.
  assert (Hc : CallWhere "a = ?" [AInt 1] <> CallBuild) by discriminate.
  destruct (clause_calls_commute (fun r => r)
              (NewQueryBuilder PostgreSQL "t" [])
              (SetLeftJoin "u" "u.k = ?") (CallWhere "a = ?" [AInt 1]) Hc)
    as (H & _).
  split; [exact Hc|]. split; [exact H|]. vm_compute. reflexivity.
Defined.

(** ** [Build] without LIMIT and OFFSET, and [Having] *)

(** X7. When neither the limit nor the offset is strictly positive
    (never set, zero or negative), [Build] returns the statement up to
    ORDER BY and the arguments as they are and leaves the builder
    unchanged, so building again gives the same result. *)
Theorem Build_without_paging (qb : QueryBuilder) :
  limit qb <= 0 -> offset qb <= 0 ->
  Build qb = (statement_head qb, args qb, qb)
  /\ Build (snd (Build qb)) = Build qb.
Proof.
  intros Hl Ho. rewrite Build_plain by assumption. cbn [snd].
  split; [reflexivity|]. now apply Build_plain.
Qed.

Lemma Build_without_paging_witness :
  let qb := Offset (Limit (Where (NewQueryBuilder MariaDB "t" ["a"])
                             "a > ?" [AInt 3]) (-5)) 0 in
  limit qb <= 0 /\ offset qb <= 0
  /\ fst (Build qb) = ("SELECT `a` FROM `t` WHERE a > ?", [AInt 3])
  /\ Build (snd (Build qb)) = Build qb.
Proof.
  cbv zeta.
  assert (Hl : limit (Offset (Limit (Where (NewQueryBuilder MariaDB "t" ["a"])
                                       "a > ?" [AInt 3]) (-5)) 0) <= 0)
    by (vm_compute; discriminate).
  assert (Ho : offset (Offset (Limit (Where (NewQueryBuilder MariaDB "t" ["a"])
                                        "a > ?" [AInt 3]) (-5)) 0) <= 0)
    by (vm_compute; discriminate).
  destruct (Build_without_paging _ Hl Ho) as [H1 H2].
  split; [exact Hl|]. split; [exact Ho|]. split; [|exact H2].
  rewrite H1. vm_compute. reflexivity.
Defined.

(** X8. [Having] binds its arguments although [Build] writes no HAVING
    clause: the statement up to ORDER BY is the same as without the call,
    the arguments returned hold the values passed to [Having], and a LIMIT
    or OFFSET marker is numbered after them. *)
Theorem Having_Build (qb : QueryBuilder) (condition : string) (a : list any) :
  statement_head (Having qb condition a) = statement_head qb
  /\ snd (fst (Build (Having qb condition a)))
     = args qb ++ a ++ paging_args qb
  /\ fst (fst (Build (Having qb condition a)))
     = statement_head qb
       +:+ (if 0 <? limit qb
            then " LIMIT $" +:+ itoa (int_add (len (args qb ++ a)) 1)
            else EmptyString)
       +:+ (if 0 <? offset qb
            then " OFFSET $"
                 +:+ itoa (if 0 <? limit qb
                           then int_add (int_add (len (args qb ++ a)) 1) 1
                           else int_add (len (args qb ++ a)) 1)
            else EmptyString).
Proof.
  split; [reflexivity|]. split.
  - rewrite Build_eq. cbn [fst snd]. unfold Having. cbn [args set_args].
    now rewrite <- app_assoc.
  - rewrite Build_text. reflexivity.
Qed.

(** ** [validateDirection]: case and repetition *)

Lemma isASCII_cons (c : ascii) (t : string) :
  isASCII (String c t) = (byte_of c <? 0x80) && isASCII t.
Proof. reflexivity. Qed.

Lemma upper_byte_ascii (c : ascii) :
  byte_of c < 0x80 ->
  byte_of (upper_byte c) < 0x80 /\ upper_byte (upper_byte c) = upper_byte c.
Proof.
  intros Hc. pose proof (byte_of_bounds c) as Hb. unfold upper_byte, in_range.
  destruct (Z.leb_spec 97 (byte_of c)), (Z.leb_spec (byte_of c) 122);
    cbn [andb].
  - rewrite byte_of_ascii_of by lia.
    destruct (Z.leb_spec 97 (byte_of c - 32)); [lia|]. cbn [andb].
    split; [lia | reflexivity].
  - destruct (Z.leb_spec 97 (byte_of c)); [|lia].
    destruct (Z.leb_spec (byte_of c) 122); [lia|]. cbn [andb]. now split.
  - destruct (Z.leb_spec 97 (byte_of c)); [lia|]. cbn [andb]. now split.
  - destruct (Z.leb_spec 97 (byte_of c)); [lia|]. cbn [andb]. now split.
Qed.

Lemma map_upper_ascii (s : string) :
  isASCII s = true ->
  isASCII (map_bytes upper_byte s) = true
  /\ map_bytes upper_byte (map_bytes upper_byte s) = map_bytes upper_byte s.
Proof.
  induction s as [|c t IH]; [now split|].
  rewrite isASCII_cons. intros H. apply andb_true_iff in H.
  destruct H as [Hc Ht]. apply Z.ltb_lt in Hc.
  destruct (IH Ht) as [IH1 IH2]. destruct (upper_byte_ascii c Hc) as [U1 U2].
  cbn [map_bytes]. rewrite isASCII_cons, IH1, IH2, U2.
  split; [|reflexivity]. apply andb_true_iff. split; [|reflexivity].
  now apply Z.ltb_lt.
Qed.

Section DirectionProperties.

Variable up : Z -> Z.

(** X9. [validateDirection] returns its own results unchanged, so
    validating twice is validating once; on an ASCII direction it looks at
    the upper-cased bytes only, so directions that differ in letter case
    alone get the same result, whatever Unicode case table is in use. *)
Theorem validateDirection_stable (direction other : string) :
  validateDirection up (validateDirection up direction)
  = validateDirection up direction
  /\ (isASCII direction = true ->
      validateDirection up (map_bytes upper_byte direction)
      = validateDirection up direction)
  /\ (isASCII direction = true -> isASCII other = true ->
      map_bytes upper_byte direction = map_bytes upper_byte other ->
      validateDirection up direction = validateDirection up other).
Proof.
  split; [|split].
  - rewrite (validateDirection_cases up direction).
    destruct (String.eqb (ToUpper up direction) "ASC"); reflexivity.
  - intros Ha. destruct (map_upper_ascii direction Ha) as [H1 H2].
    unfold validateDirection, ToUpper. now rewrite H1, H2, Ha.
  - intros Ha Hb E. unfold validateDirection, ToUpper. now rewrite Ha, Hb, E.
Qed.

End DirectionProperties.

Lemma validateDirection_stable_witness :
  isASCII "Asc" = true /\ isASCII "aSC" = true
  /\ map_bytes upper_byte "Asc" = map_bytes upper_byte "aSC"
  /\ validateDirection (fun r => r) "Asc" = "ASC"
  /\ validateDirection (fun r => r) "aSC" = "ASC".
Proof.
  assert (Ha : isASCII "Asc" = true) by reflexivity.
  assert (Hb : isASCII "aSC" = true) by reflexivity.
  assert (E : map_bytes upper_byte "Asc" = map_bytes upper_byte "aSC")
    by reflexivity.
  destruct (validateDirection_stable (fun r => r) "Asc" "aSC") as (_ & H2 & H3).
  split; [exact Ha|]. split; [exact Hb|]. split; [exact E|]. split.
  - rewrite <- (H2 Ha). vm_compute. reflexivity.
  - rewrite <- (H3 Ha Hb E). vm_compute. reflexivity.
Defined.

(** ** [OrderBy]: what the fragment can hold *)

Lemma read_body_doubled_rest (q : ascii) (name rest : string) :
  Ascii.eqb q " " = false ->
  read_body q (doubled q name +:+ String q (String " " rest))
  = Some (name, String " " rest).
Proof.
  intros Hq. induction name as [|c t IH]; simpl.
  - now rewrite Ascii.eqb_refl, Hq.
  - destruct (Ascii.eqb q c) eqn:E; simpl.
    + apply Ascii.eqb_eq in E. subst c.
      rewrite !Ascii.eqb_refl, IH. reflexivity.
    + rewrite E, IH. reflexivity.
Qed.

Lemma quote_of_not_space (d : DBType) : Ascii.eqb (quote_of d) " " = false.
Proof. unfold quote_of. destruct (String.eqb d PostgreSQL); reflexivity. Qed.

Section OrderByProperties.

Variable up : Z -> Z.

(** X10. With an allow-list the column [OrderBy] sorts by is a key of the
    list or the literal [id], never another caller-supplied name; and
    whatever the column and direction passed, the fragment is one
    delimited identifier (or [*]) followed by a space and ASC or DESC: read
    as a quoted identifier it gives the sort column back and leaves only
    the direction. *)
Theorem OrderBy_fragment (qb : QueryBuilder) (column direction : string)
    (allowed : option (gmap string bool)) :
  (forall m : gmap string bool,
     is_Some (m !! sort_column column (Some m))
     \/ sort_column column (Some m) = "id")
  /\ (sort_column column allowed <> "*" ->
      read_quoted (quote_of (dbType qb))
        (orderBy (OrderBy up qb column direction allowed))
      = Some (sort_column column allowed,
              " " +:+ validateDirection up direction))
  /\ (sort_column column allowed = "*" ->
      orderBy (OrderBy up qb column direction allowed)
      = "* " +:+ validateDirection up direction)
  /\ (validateDirection up direction = "ASC"
      \/ validateDirection up direction = "DESC").
Proof.
  split; [|split; [|split]].
  - intros m. unfold sort_column. case_decide as H; [left; exact H | now right].
  - intros Hn. rewrite OrderBy_orderBy. cbn [orderBy set_orderBy].
    rewrite escapeIdentifier_quoted by assumption.
    rewrite !str_app_assoc. cbn [String.append read_quoted].
    rewrite Ascii.eqb_refl.
    apply read_body_doubled_rest, quote_of_not_space.
  - intros Hs. rewrite OrderBy_orderBy. cbn [orderBy set_orderBy].
    rewrite Hs. reflexivity.
  - rewrite validateDirection_cases.
    destruct (String.eqb (ToUpper up direction) "ASC"); auto.
Qed.

End OrderByProperties.

Lemma OrderBy_fragment_witness :
  let column := "x" +:+ dquote +:+ "; DROP TABLE t; --" in
  sort_column column None <> "*"
  /\ read_quoted (ascii_of 34)
       (orderBy (OrderBy (fun r => r) (NewQueryBuilder PostgreSQL "t" [])
                   column "asc; DELETE" None))
     = Some (column, " DESC")
  /\ sort_column "*" None = "*"
  /\ orderBy (OrderBy (fun r => r) (NewQueryBuilder PostgreSQL "t" [])
                "*" "asc" None) = "* ASC".
Proof.
  cbv zeta.
  assert (Hn : sort_column ("x" +:+ dquote +:+ "; DROP TABLE t; --") None
               <> "*") by discriminate.
  assert (Hs : sort_column "*" None = "*") by reflexivity.
  destruct (OrderBy_fragment (fun r => r) (NewQueryBuilder PostgreSQL "t" [])
              ("x" +:+ dquote +:+ "; DROP TABLE t; --") "asc; DELETE" None)
    as (_ & H2 & _).
  destruct (OrderBy_fragment (fun r => r) (NewQueryBuilder PostgreSQL "t" [])
              "*" "asc" None) as (_ & _ & H3 & _).
  split; [exact Hn|]. split; [|split; [exact Hs|]].
  - change (ascii_of 34)
      with (quote_of (dbType (NewQueryBuilder PostgreSQL "t" []))).
    rewrite (H2 Hn). reflexivity.
  - rewrite (H3 Hs). reflexivity.
Defined.

(** ** Decimal markers *)

Lemma itoa_inj (a b : Z) : itoa a = itoa b -> a = b.
Proof.
  assert (Hr : forall z,
             NilZero.int_of_string (NilZero.string_of_int (Z.to_int z))
             = Some (Z.to_int z)).
  { intros z. apply NilZero.isi; destruct z; simpl; try discriminate;
      intros E; injection E; apply DecimalPos.Unsigned.to_uint_nonnil. }
  unfold itoa. intros H. apply DecimalZ.to_int_inj.
  pose proof (Hr a) as Ha. rewrite H, Hr in Ha. congruence.
Qed.

Lemma uint_decimal (d : Decimal.uint) :
  decimal_text (NilEmpty.string_of_uint d).
Proof.
  induction d; simpl; try exact I; (split; [right; vm_compute; split; discriminate | assumption]).
Qed.

Lemma itoa_decimal (n : Z) : decimal_text (itoa n).
Proof.
  assert (Hu : forall d, decimal_text (NilZero.string_of_uint d)).
  { intros d. destruct d; try apply uint_decimal.
    simpl. split; [right; vm_compute; split; discriminate | exact I]. }
  unfold itoa. destruct (Z.to_int n) as [d|d]; simpl; [apply Hu|].
  split; [left; reflexivity | apply Hu].
Qed.

Lemma count_placeholders_app (a b : string) :
  count_placeholders (a +:+ b)
  = (count_placeholders a + count_placeholders b)%nat.
Proof.
  induction a as [|c t IH]; [reflexivity|]. simpl.
  destruct (byte_of c =? 63); rewrite IH; reflexivity.
Qed.

Lemma decimal_no_question (s : string) :
  decimal_text s -> count_placeholders s = 0%nat.
Proof.
  induction s as [|c t IH]; [reflexivity|]. intros [Hc Ht]. simpl.
  destruct (Z.eqb_spec (byte_of c) 63); [lia | now apply IH].
Qed.

Lemma high_byte_no_question (z : Z) (t : string) :
  0x80 <= z < 256 ->
  count_placeholders (String (ascii_of z) t) = count_placeholders t.
Proof.
  intros H. simpl. rewrite byte_of_ascii_of by lia.
  destruct (Z.eqb_spec z 63); [lia | reflexivity].
Qed.

Lemma EncodeRune_no_question (r : Z) :
  r <> 63 -> count_placeholders (EncodeRune r) = 0%nat.
Proof.
  intros Hr. unfold EncodeRune, in_range, MaxRune.
  destruct (Z.leb_spec 0 r), (Z.leb_spec r 0x7F); cbn [andb].
  - simpl. rewrite byte_of_ascii_of by lia.
    destruct (Z.eqb_spec r 63); [lia | reflexivity].
  - destruct (Z.leb_spec r 0x7FF); cbn [andb].
    + rewrite !high_byte_no_question; [reflexivity | |];
        Z.div_mod_to_equations; lia.
    + destruct (Z.ltb_spec r 0); [lia|].
      destruct (Z.ltb_spec 0x10FFFF r); cbn [orb]; [reflexivity|].
      destruct (Z.leb_spec 0xD800 r), (Z.leb_spec r 0xDFFF); cbn [andb];
        try reflexivity;
        destruct (Z.leb_spec r 0xFFFF);
        rewrite !high_byte_no_question; try reflexivity;
        Z.div_mod_to_equations; lia.
  - destruct (Z.leb_spec r 0x7FF); cbn [andb]; [|lia].
    destruct (Z.ltb_spec r 0); [reflexivity | lia].
  - lia.
Qed.

Lemma rewrite_runes_no_question (rs : list Z) (n : Z) :
  count_placeholders (rewrite_runes rs n) = 0%nat.
Proof.
  revert n. induction rs as [|r rs IH]; intros n; [reflexivity|].
  cbn [rewrite_runes]. destruct (Z.eqb_spec r 63).
  - change ("$" +:+ itoa n +:+ rewrite_runes rs (int_add n 1))
      with (String "$" (itoa n +:+ rewrite_runes rs (int_add n 1))).
    cbn [count_placeholders]. change (byte_of "$" =? 63) with false.
    cbv iota. rewrite count_placeholders_app, IH.
    now rewrite (decimal_no_question _ (itoa_decimal n)).
  - now rewrite count_placeholders_app, IH, EncodeRune_no_question.
Qed.

(** X11. For every dialect value other than MariaDB the text
    [replacePlaceholders] returns holds no [?] any more, whatever the
    condition and the start index: every [?] of the condition has become a
    marker, also one inside a quoted literal. *)
Theorem replacePlaceholders_no_question (d : DBType) (condition : string)
    (startIdx : Z) :
  d <> MariaDB ->
  count_placeholders (replacePlaceholders d condition startIdx) = 0%nat.
Proof.
  intros Hd. rewrite replacePlaceholders_runes by assumption.
  apply rewrite_runes_no_question.
Qed.

Lemma replacePlaceholders_no_question_witness :
  PostgreSQL <> MariaDB
  /\ count_placeholders "a = '?' AND b = ?" = 2%nat
  /\ count_placeholders (replacePlaceholders PostgreSQL "a = '?' AND b = ?" 1)
     = 0%nat.
Proof.
  assert (Hd : PostgreSQL <> MariaDB) by discriminate.
  split; [exact Hd|]. split; [reflexivity|].
  exact (replacePlaceholders_no_question PostgreSQL "a = '?' AND b = ?" 1 Hd).
Defined.

(** ** [replacePlaceholders] on a condition made of two parts *)

Lemma wrap_range (z : Z) : int_min <= wrap z <= int_max.
Proof.
  unfold int_min, int_max, wrap.
  pose proof (Z.mod_pos_bound (z + 9223372036854775808) 18446744073709551616).
  lia.
Qed.

Lemma wrap_add_l (a b : Z) : wrap (wrap a + b) = wrap (a + b).
Proof.
  unfold wrap.
  replace ((a + 9223372036854775808) mod 18446744073709551616
           - 9223372036854775808 + b + 9223372036854775808)
    with ((a + 9223372036854775808) mod 18446744073709551616 + b) by lia.
  rewrite Zplus_mod_idemp_l. f_equal. f_equal. lia.
Qed.

Lemma DecodeRune_app (c : ascii) (t b : string) :
  DecodeRuneInString (String c t) <> (RuneError, 1%nat) ->
  DecodeRuneInString (String c (t +:+ b)) = DecodeRuneInString (String c t).
Proof.
  intros H. unfold DecodeRuneInString in *.
  destruct (byte_of c <? 0x80); [reflexivity|].
  destruct (in_range 0xC2 0xDF (byte_of c)).
  { destruct t as [|c1 t1]; [congruence | reflexivity]. }
  destruct (in_range 0xE0 0xEF (byte_of c)).
  { destruct t as [|c1 [|c2 t2]]; try congruence. reflexivity. }
  destruct (in_range 0xF0 0xF4 (byte_of c)); [|congruence].
  destruct t as [|c1 [|c2 [|c3 t3]]]; try congruence. reflexivity.
Qed.

Lemma ValidString_head (c : ascii) (t : string) :
  ValidString (String c t) = true ->
  DecodeRuneInString (String c t) <> (RuneError, 1%nat).
Proof.
  rewrite ValidString_cons. intros Hv E. rewrite E in Hv.
  cbn [fst snd] in Hv. rewrite Z.eqb_refl in Hv. discriminate Hv.
Qed.

Lemma range_runes_app (m : nat) :
  forall a b : string,
    (String.length a <= m)%nat -> ValidString a = true ->
    range_runes (a +:+ b) = range_runes a ++ range_runes b.
Proof.
  induction m as [|m IH]; intros a b Hlen Hv.
  - destruct a; [reflexivity | simpl in Hlen; lia].
  - destruct a as [|c t]; [reflexivity|]. simpl in Hlen.
    pose proof (ValidString_head c t Hv) as Hne.
    change (String c t +:+ b) with (String c (t +:+ b)).
    rewrite (range_runes_cons c (t +:+ b)), DecodeRune_app by assumption.
    rewrite (range_runes_cons c t). cbn [app]. f_equal.
    rewrite ValidString_cons in Hv.
    destruct (Z.lt_ge_cases (byte_of c) 0x80) as [Hlo|Hhi].
    + rewrite DecodeRune_low in * by assumption. cbn [fst snd] in *.
      replace (byte_of c =? RuneError) with false in Hv
        by (symmetry; apply Z.eqb_neq; unfold RuneError; lia).
      cbn [andb Nat.sub drop_bytes] in *. apply IH; [lia | assumption].
    + destruct (DecodeRune_high c t Hhi)
        as (bs & rest & r & Ht & Hd & Hr & Hbs & Hcase).
      rewrite Hd in *. cbn [fst snd] in *. subst t.
      replace (S (String.length bs) - 1)%nat with (String.length bs) in *
        by lia.
      rewrite str_app_assoc, !drop_bytes_app in *.
      destruct Hcase as [[-> ->]|[Hn _]]; [discriminate Hv|].
      destruct bs as [|c1 bs']; [congruence|].
      rewrite andb_false_r in Hv.
      apply IH; [|assumption].
      rewrite str_app_length in Hlen. simpl in Hlen. lia.
Qed.

Lemma rewrite_runes_app (rs1 rs2 : list Z) :
  forall n : Z,
    int_min <= n <= int_max ->
    rewrite_runes (rs1 ++ rs2) n
    = rewrite_runes rs1 n
      +:+ rewrite_runes rs2 (int_add n (Z.of_nat (count_question rs1))).
Proof.
  induction rs1 as [|r rs1 IH]; intros n Hn.
  - cbn [app rewrite_runes count_question String.append].
    unfold int_add. now rewrite Z.add_0_r, wrap_id.
  - cbn [app rewrite_runes count_question]. destruct (r =? 63).
    + rewrite IH by apply wrap_range. rewrite !str_app_assoc.
      do 4 f_equal. unfold int_add. rewrite wrap_add_l. f_equal. lia.
    + rewrite IH by assumption. now rewrite str_app_assoc.
Qed.

(** X12. Rewriting a condition made of two parts is rewriting the parts:
    when the first part is valid UTF-8 and the start index an int, the
    result is the first part rewritten from the start index followed by
    the second part rewritten from the start index plus the number of [?]
    in the first part (in int arithmetic); this holds for every dialect
    value. *)
Theorem replacePlaceholders_app (d : DBType) (first second : string)
    (startIdx : Z) :
  ValidString first = true ->
  int_min <= startIdx <= int_max ->
  replacePlaceholders d (first +:+ second) startIdx
  = replacePlaceholders d first startIdx
    +:+ replacePlaceholders d second
          (int_add startIdx (Z.of_nat (count_placeholders first))).
Proof.
  intros Hv Hn. destruct (String.eqb_spec d MariaDB) as [->|Hd];
    [reflexivity|].
  rewrite !replacePlaceholders_runes by assumption.
  rewrite (range_runes_app (String.length first)) by (assumption || lia).
  rewrite rewrite_runes_app by assumption.
  now rewrite (count_question_runes (String.length first)).
Qed.

Lemma replacePlaceholders_app_witness :
  ValidString "a = ? AND b IN (?, ?)" = true
  /\ int_min <= 4 <= int_max
  /\ replacePlaceholders PostgreSQL
       ("a = ? AND b IN (?, ?)" +:+ " AND c = ?") 4
     = "a = $4 AND b IN ($5, $6)" +:+ " AND c = $7".
Proof.
  assert (Hv : ValidString "a = ? AND b IN (?, ?)" = true)
    by (vm_compute; reflexivity).
  assert (Hn : int_min <= 4 <= int_max) by (split; discriminate).
  split; [exact Hv|]. split; [exact Hn|].
  rewrite (replacePlaceholders_app PostgreSQL "a = ? AND b IN (?, ?)"
             " AND c = ?" 4 Hv Hn).
  vm_compute. reflexivity.
Defined.

(** ** [generatePlaceholders] and [WhereIn]: no value, distinct markers *)

(** X13. [WhereIn] with an empty list of values appends the condition
    [column IN ()], with nothing between the parentheses, and leaves the
    arguments as they are, for every dialect value: the call is not
    skipped. *)
Theorem WhereIn_no_values (qb : QueryBuilder) (column : string) :
  conditions (WhereIn qb column [])
  = conditions qb ++ [escapeIdentifier (dbType qb) column +:+ " IN ()"]
  /\ args (WhereIn qb column []) = args qb
  /\ where_clause (WhereIn qb column []) <> EmptyString.
Proof.
  rewrite WhereIn_eq. cbn [conditions args set_args set_conditions].
  split; [reflexivity|]. split; [apply app_nil_r|].
  unfold where_clause. cbn [conditions].
  destruct (conditions qb); discriminate.
Qed.

Lemma str_app_inv_head (s a b : string) : s +:+ a = s +:+ b -> a = b.
Proof.
  induction s as [|c s IH]; intros H; [exact H|].
  apply IH. cbn [String.append] in H. congruence.
Qed.

(** X14. For PostgreSQL the placeholders [generatePlaceholders] writes
    are pairwise different as long as the numbers stay in the int range,
    so no two values of one list share a marker. *)
Theorem placeholders_distinct (startIdx : Z) (count : nat) :
  int_min <= startIdx -> startIdx + Z.of_nat count <= int_max + 1 ->
  List.NoDup (map (placeholder_at PostgreSQL startIdx) (seq 0 count)).
Proof.
  intros Hlo Hhi. apply NoDup_map_NoDup_ForallPairs; [|apply seq_NoDup].
  intros i j Hi Hj E. apply in_seq in Hi. apply in_seq in Hj.
  destruct Hi as [_ Hi]. destruct Hj as [_ Hj].
  rewrite !placeholder_at_postgres in E. apply str_app_inv_head in E.
  apply itoa_inj in E.
  rewrite !int_add_small in E by (unfold int_min, int_max in *; lia). lia.
Qed.

Lemma placeholders_distinct_witness :
  int_min <= 3 /\ 3 + Z.of_nat 4 <= int_max + 1
  /\ List.NoDup ["$3"; "$4"; "$5"; "$6"].
Proof.
  assert (Hlo : int_min <= 3) by discriminate.
  assert (Hhi : 3 + Z.of_nat 4 <= int_max + 1) by discriminate.
  split; [exact Hlo|]. split; [exact Hhi|].
  exact (placeholders_distinct 3 4 Hlo Hhi).
Defined.

(** ** [Build] twice: the statement text *)

Lemma decimal_split (s1 : string) :
  forall s2 r1 r2 : string,
    decimal_text s1 -> decimal_text s2 ->
    s1 +:+ String " " r1 = s2 +:+ String " " r2 -> s1 = s2.
Proof.
  assert (Hsp : forall c : ascii,
             byte_of c = 45 \/ 48 <= byte_of c <= 57 -> c <> " "%char).
  { intros c Hc ->. vm_compute in Hc. destruct Hc as [Hc|[Hc _]];
      [discriminate Hc | now apply Hc]. }
  induction s1 as [|a s1 IH]; intros [|c s2] r1 r2 D1 D2 H;
    cbn [String.append] in H.
  - reflexivity.
  - destruct D2 as [Dc _]. exfalso. apply (Hsp c Dc). congruence.
  - destruct D1 as [Da _]. exfalso. apply (Hsp a Da). congruence.
  - destruct D1 as [_ D1]. destruct D2 as [_ D2].
    assert (a = c) by congruence. subst c. f_equal.
    apply (IH s2 r1 r2 D1 D2). congruence.
Qed.

Lemma len_app {A : Type} (l1 l2 : list A) : len (l1 ++ l2) = len l1 + len l2.
Proof. unfold len. rewrite length_app. lia. Qed.

Lemma marker_text_inj (a b : Z) (x y : string) :
  itoa a +:+ x = itoa b +:+ y ->
  (x = EmptyString /\ y = EmptyString)
  \/ (exists x' y', x = String " " x' /\ y = String " " y') ->
  a = b.
Proof.
  intros E [[-> ->]|(x' & y' & -> & ->)].
  - rewrite !str_app_nil_r in E. now apply itoa_inj.
  - apply itoa_inj. apply (decimal_split _ _ x' y'); auto using itoa_decimal.
Qed.

(** X15. When the limit or the offset is strictly positive and the
    argument count leaves room for four more in the int range, the
    statement text of a second [Build] on the same builder differs from
    the text of the first: its LIMIT and OFFSET markers carry other
    numbers. *)
Theorem Build_twice_text (qb : QueryBuilder) :
  0 < limit qb \/ 0 < offset qb ->
  len (args qb) + 4 <= int_max ->
  fst (fst (Build (snd (Build qb)))) <> fst (fst (Build qb)).
Proof.
  intros H Hb E. rewrite (Build_text (snd (Build qb))), (Build_text qb) in E.
  rewrite Build_eq in E. cbn [snd] in E.
  change (statement_head (set_args qb (args qb ++ paging_args qb)))
    with (statement_head qb) in E.
  apply str_app_inv_head in E.
  unfold limit_clause, offset_clause in E.
  cbn [limit offset args set_args] in E.
  assert (Hlen : 0 <= len (args qb)) by (unfold len; lia).
  unfold paging_args in E.
  destruct (Z.ltb_spec 0 (limit qb)) as [Hl|Hl],
           (Z.ltb_spec 0 (offset qb)) as [Ho|Ho]; try lia;
    rewrite len_app in E.
  - change (len ([AInt (limit qb)] ++ [AInt (offset qb)])) with 2 in E.
    rewrite !str_app_assoc in E. apply str_app_inv_head in E.
    apply marker_text_inj in E.
    + rewrite !int_add_small in E by (unfold int_min, int_max in *; lia).
      lia.
    + right. eexists. eexists. split; reflexivity.
  - change (len ([AInt (limit qb)] ++ [])) with 1 in E.
    rewrite !str_app_assoc in E. apply str_app_inv_head in E.
    apply marker_text_inj in E.
    + rewrite !int_add_small in E by (unfold int_min, int_max in *; lia).
      lia.
    + left. split; reflexivity.
  - change (len ([] ++ [AInt (offset qb)])) with 1 in E.
    cbn [String.append] in E.
    change (" OFFSET $" +:+ ?x) with (" OFFSET $" +:+ x) in E.
    apply (str_app_inv_head " OFFSET $") in E.
    apply itoa_inj in E.
    rewrite !int_add_small in E by (unfold int_min, int_max in *; lia).
    lia.
Qed.

Lemma Build_twice_text_witness :
  let qb := Limit (NewQueryBuilder MariaDB "t" []) 10 in
  (0 < limit qb \/ 0 < offset qb)
  /\ len (args qb) + 4 <= int_max
  /\ fst (fst (Build qb)) = "SELECT * FROM `t` LIMIT $1"
  /\ fst (fst (Build (snd (Build qb)))) = "SELECT * FROM `t` LIMIT $2"
  /\ fst (fst (Build (snd (Build qb)))) <> fst (fst (Build qb)).
Proof.
  cbv zeta.
  assert (H : 0 < limit (Limit (NewQueryBuilder MariaDB "t" []) 10)
              \/ 0 < offset (Limit (NewQueryBuilder MariaDB "t" []) 10))
    by (left; reflexivity).
  assert (Hb : len (args (Limit (NewQueryBuilder MariaDB "t" []) 10)) + 4
               <= int_max) by (vm_compute; discriminate).
  split; [exact H|]. split; [exact Hb|].
  split; [vm_compute; reflexivity|]. split; [vm_compute; reflexivity|].
  exact (Build_twice_text _ H Hb).
Defined.

(** ** From [NewQueryBuilder] through [Where] to [Build] *)

(** X16. The second test of the repository for every table, column list,
    condition and argument list: on a fresh PostgreSQL builder one [Where]
    with a condition that is valid UTF-8 builds the SELECT and FROM
    clauses followed by WHERE and the condition with its [?] numbered from
    1, and returns the arguments passed; on a fresh MariaDB builder the
    condition is written as given. *)
Theorem Where_Build (t : string) (cols : list string) (condition : string)
    (a : list any) :
  (ValidString condition = true ->
   fst (Build (Where (NewQueryBuilder PostgreSQL t cols) condition a))
   = ("SELECT "
      +:+ Join (match cols with
                | [] => ["*"]
                | _ => map (escapeIdentifier PostgreSQL) cols
                end) ", "
      +:+ " FROM " +:+ escapeIdentifier PostgreSQL t
      +:+ " WHERE " +:+ rewrite_bytes condition 1,
      a))
  /\ fst (Build (Where (NewQueryBuilder MariaDB t cols) condition a))
     = ("SELECT "
        +:+ Join (match cols with
                  | [] => ["*"]
                  | _ => map (escapeIdentifier MariaDB) cols
                  end) ", "
        +:+ " FROM " +:+ escapeIdentifier MariaDB t
        +:+ " WHERE " +:+ condition,
        a).
Proof.
  assert (Hhead : forall d x,
             statement_head
               (set_args
                  (set_conditions (NewQueryBuilder d t cols) [x]) a)
             = "SELECT "
               +:+ Join (match cols with
                         | [] => ["*"]
                         | _ => map (escapeIdentifier d) cols
                         end) ", "
               +:+ " FROM " +:+ escapeIdentifier d t +:+ " WHERE " +:+ x).
  { intros d x.
    unfold statement_head, select_clause, from_clause, join_clause,
      where_clause, order_clause, NewQueryBuilder.
    cbv zeta.
    cbn [columns table joins conditions orderBy String.eqb set_args
         set_conditions].
    unfold Join at 2. cbn [String.concat].
    rewrite !str_app_nil_r, !str_app_assoc. cbn [String.append].
    destruct cols; reflexivity. }
  split.
  - intros Hv. rewrite Build_plain by (simpl; lia). cbn [fst].
    unfold Where. cbn [args conditions dbType NewQueryBuilder app].
    change (int_add (len (@nil any)) 1) with 1.
    rewrite replacePlaceholders_runes by discriminate.
    rewrite (rewrite_valid (String.length condition)) by (assumption || lia).
    f_equal. apply (Hhead PostgreSQL).
  - rewrite Build_plain by (simpl; lia). cbn [fst].
    unfold Where. cbn [args conditions dbType NewQueryBuilder app].
    change (replacePlaceholders MariaDB condition
              (int_add (len (@nil any)) 1)) with condition.
    f_equal. apply (Hhead MariaDB).
Qed.

Lemma Where_Build_witness :
  ValidString "new_id = ?" = true
  /\ fst (Build (Where (NewQueryBuilder PostgreSQL "new_table"
                          ["new_id"; "new_name"])
                   "new_id = ?" [AString "abc123"]))
     = ("SELECT " +:+ dquote +:+ "new_id" +:+ dquote +:+ ", " +:+ dquote
        +:+ "new_name" +:+ dquote +:+ " FROM " +:+ dquote +:+ "new_table"
        +:+ dquote +:+ " WHERE new_id = $1",
        [AString "abc123"]).
Proof.
  assert (Hv : ValidString "new_id = ?" = true) by (vm_compute; reflexivity).
  split; [exact Hv|].
  rewrite (proj1 (Where_Build "new_table" ["new_id"; "new_name"] "new_id = ?"
                    [AString "abc123"]) Hv).
  vm_compute. reflexivity.
Defined.

(** ** [generatePlaceholders]: how many [?] the list holds *)

Lemma count_placeholders_Join (l : list string) :
  count_placeholders (Join l ", ") = list_sum (map count_placeholders l).
Proof.
  unfold Join. induction l as [|x l IH]; [reflexivity|].
  destruct l as [|y l].
  - cbn [String.concat map list_sum fold_right]. lia.
  - change (String.concat ", " (x :: y :: l))
      with (x +:+ ", " +:+ String.concat ", " (y :: l)).
    rewrite !count_placeholders_app, IH.
    change (list_sum (map count_placeholders (x :: y :: l)))
      with (count_placeholders x
            + list_sum (map count_placeholders (y :: l)))%nat.
    reflexivity.
Qed.

Lemma list_sum_repeat (k n : nat) : list_sum (repeat k n) = (n * k)%nat.
Proof.
  induction n as [|n IH]; [reflexivity|].
  change (list_sum (repeat k (S n))) with (k + list_sum (repeat k n))%nat.
  rewrite IH. lia.
Qed.

Lemma list_sum_zero (l : list nat) :
  (forall x, In x l -> x = 0%nat) -> list_sum l = 0%nat.
Proof.
  induction l as [|x l IH]; intros H; [reflexivity|].
  change (list_sum (x :: l)) with (x + list_sum l)%nat.
  rewrite IH by (intros y Hy; apply H; now right).
  rewrite (H x) by now left. reflexivity.
Qed.

(** X17. The list [generatePlaceholders] writes holds exactly [count]
    bytes [?] for every dialect value other than PostgreSQL, one per
    value, and no [?] at all for PostgreSQL. *)
Theorem generatePlaceholders_count (d : DBType) (startIdx : Z) (count : nat) :
  (d <> PostgreSQL ->
   count_placeholders (generatePlaceholders d startIdx count) = count)
  /\ count_placeholders (generatePlaceholders PostgreSQL startIdx count)
     = 0%nat.
Proof.
  split.
  - intros Hd. rewrite generatePlaceholders_other by assumption.
    rewrite count_placeholders_Join, map_repeat.
    change (count_placeholders "?") with 1%nat.
    rewrite list_sum_repeat. lia.
  - rewrite generatePlaceholders_postgres, count_placeholders_Join.
    apply list_sum_zero. intros x Hx. apply in_map_iff in Hx.
    destruct Hx as (s & <- & Hs). apply in_map_iff in Hs.
    destruct Hs as (i & <- & _).
    change ("$" +:+ itoa (int_add startIdx (Z.of_nat i)))
      with (String "$" (itoa (int_add startIdx (Z.of_nat i)))).
    cbn [count_placeholders]. change (byte_of "$" =? 63) with false.
    cbv iota. apply decimal_no_question, itoa_decimal.
Qed.

Lemma generatePlaceholders_count_witness :
  MariaDB <> PostgreSQL
  /\ generatePlaceholders MariaDB 1 3 = "?, ?, ?"
  /\ count_placeholders (generatePlaceholders MariaDB 1 3) = 3%nat.
Proof.
  assert (Hd : MariaDB <> PostgreSQL) by discriminate.
  split; [exact Hd|]. split; [reflexivity|].
  exact (proj1 (generatePlaceholders_count MariaDB 1 3) Hd).
Defined.
